(** * Chunk-keyed XOR validation script and benchmark-filter patcher

    A shallow embedding of [test_xor_decryption.py] and of
    [scripts/shared/update-core-benchmark-filters.py].

    Python integers are unbounded, so they are values of [Z]; [//] and [%]
    with a positive divisor are [Z.div] and [Z.modulo] (both round towards
    minus infinity), and [^] is [Z.lxor].  A Python list of ints is a
    [list Z].  A computation that may raise returns an [option]: [None]
    stands for the raised exception.  Calls of [print] do not influence
    any returned value and are left out. *)

From Stdlib Require Import ZArith Lia List Ascii String.
From stdpp Require Import base option list strings gmap.

Local Open Scope Z_scope.

(** ** Helpers shared by both scripts *)

(** A [for] loop whose body threads one piece of state and may raise. *)
Fixpoint for_each {S A : Type} (body : S -> A -> option S) (s : S) (items : list A)
  : option S :=
  match items with
  | [] => Some s
  | x :: rest => match body s x with
                 | Some s' => for_each body s' rest
                 | None => None
                 end
  end.

(** [range(start, stop, step)] for a positive [step]. *)
Definition py_range (start stop step : Z) : list Z :=
  map (fun k => start + step * Z.of_nat k)
      (seq 0 (Z.to_nat ((stop - start + step - 1) / step))).

Module XorScript.

(** ** Constants (lines 7-10) *)

Definition XOR_KEY1 : list Z := [0x84; 0x22; 0xe9; 0xad].
Definition XOR_KEY2 : list Z := [0xb7; 0x8f; 0xff; 0x14].
Definition ENCRYPTED_MAGIC : list Z := [0x7d; 0x9c; 0x5d; 0x74].
Definition EXPECTED_MAGIC : list Z := [0xf9; 0xbe; 0xb4; 0xd9].

(** ** [struct] conversions (lines 12-16) *)

(** [bytes(b)] accepts exactly the ints of [range(256)]. *)
Definition in_byte_range (x : Z) : bool := (0 <=? x) && (x <? 256).

(** [struct.unpack('<I', bytes(b))[0]]: raises unless [b] holds exactly
    four ints of [range(256)]; little-endian, unsigned. *)
Definition u32_from_bytes (b : list Z) : option Z :=
  if forallb in_byte_range b then
    match b with
    | [b0; b1; b2; b3] =>
        Some (Z.lor b0 (Z.lor (Z.shiftl b1 8) (Z.lor (Z.shiftl b2 16) (Z.shiftl b3 24))))
    | _ => None
    end
  else None.

(** [list(struct.pack('<I', v))]: raises unless [0 <= v < 2^32]. *)
Definition bytes_from_u32 (v : Z) : option (list Z) :=
  if (0 <=? v) && (v <? 2 ^ 32) then
    Some [Z.land v 255; Z.land (Z.shiftr v 8) 255;
          Z.land (Z.shiftr v 16) 255; Z.land (Z.shiftr v 24) 255]
  else None.

(** ** Key selection *)

(** [use_key1 = (pos // 4) % 2 == 0] (lines 29, 75, 142, 149). *)
Definition use_key1 (pos : Z) : bool := (pos / 4) mod 2 =? 0.

(** [key = XOR_KEY1 if use_key1 else XOR_KEY2] (line 143). *)
Definition key_at (pos : Z) : list Z :=
  if use_key1 pos then XOR_KEY1 else XOR_KEY2.

(** The block of lines 29-32, repeated at 75-78 and 149-152:
    [key_u32 = key1_u32 if use_key1 else key2_u32]. *)
Definition key_u32_at (pos : Z) : option Z :=
  key1_u32 ← u32_from_bytes XOR_KEY1;
  key2_u32 ← u32_from_bytes XOR_KEY2;
  Some (if use_key1 pos then key1_u32 else key2_u32).

(** ** The two decryption methods of the script *)

(** The u32 XOR method (the new way), lines 149-156 (and 29-36 with the magic):
    both the data and the key are read as little-endian 32-bit integers,
    XOR-ed, and written back little-endian. *)
Definition u32_xor_decrypt (data : list Z) (file_offset : Z) : option (list Z) :=
  key_u32 ← key_u32_at file_offset;
  data_u32 ← u32_from_bytes data;
  bytes_from_u32 (Z.lxor data_u32 key_u32).

(** Body of the loop at lines 144-146:
    [byte_offset = file_offset + i; decrypted[i] ^= key[byte_offset % 4]].
    An index out of range raises [IndexError]. *)
Definition xor_in_place (key : list Z) (file_offset : Z)
    (decrypted : list Z) (i : nat) : option (list Z) :=
  let byte_offset := file_offset + Z.of_nat i in
  x ← decrypted !! i;
  k ← key !! Z.to_nat (byte_offset mod 4);
  Some (<[i := Z.lxor x k]> decrypted).

(** The byte-by-byte method (the old way), lines 141-146.  The key is chosen once,
    from [file_offset], before the loop over [range(4)]. *)
Definition byte_by_byte_decrypt (test_data : list Z) (file_offset : Z)
  : option (list Z) :=
  let decrypted := test_data in
  let key := key_at file_offset in
  for_each (xor_in_place key file_offset) decrypted (seq 0 4).

(** ** The four tests *)

(** Lines 18-50. *)
Definition test_magic_decryption : option bool :=
  let magic_start_pos := 0 in
  let encrypted_magic := ENCRYPTED_MAGIC in
  decrypted_magic ← u32_xor_decrypt encrypted_magic magic_start_pos;
  Some (bool_decide (decrypted_magic = EXPECTED_MAGIC)).

(** Lines 59-63: (magic_start_pos, size_offset). *)
Definition test_cases : list (Z * Z) := [(0, 4); (100, 104); (200, 204)].

(** Lines 71-85 for one test case: the encrypted size field as bytes and
    the size decrypted from it. *)
Definition size_round_trip (known_size size_offset : Z) : option (list Z * Z) :=
  known_size_bytes ← bytes_from_u32 known_size;
  key_u32 ← key_u32_at size_offset;
  plain_u32 ← u32_from_bytes known_size_bytes;
  let encrypted_size_u32 := Z.lxor plain_u32 key_u32 in
  encrypted_size_bytes ← bytes_from_u32 encrypted_size_u32;
  let decrypted_size_u32 := Z.lxor encrypted_size_u32 key_u32 in
  let decrypted_size := decrypted_size_u32 in
  Some (encrypted_size_bytes, decrypted_size).

(** Lines 52-98. *)
Definition test_size_decryption : option bool :=
  for_each
    (fun (all_pass : bool) '(magic_start_pos, size_offset) =>
       let known_size := 1000 in
       r ← size_round_trip known_size size_offset;
       Some (if bool_decide (r.2 = known_size) then all_pass else false))
    true test_cases.

(** Lines 109-111 and 118-120. *)
Definition key_name (offset : Z) : string :=
  let chunk := offset / 4 in
  let use_key1 := chunk mod 2 =? 0 in
  if use_key1 then "KEY1"%string else "KEY2"%string.

(** Lines 100-128. *)
Definition test_key_rotation : option bool :=
  let expected :=
    ["KEY1"; "KEY2"; "KEY1"; "KEY2"; "KEY1"; "KEY2"; "KEY1"; "KEY2"]%string in
  let actual := map key_name (py_range 0 32 4) in
  Some (bool_decide (actual = expected)).

(** Lines 130-169. *)
Definition test_byte_by_byte_vs_u32 : option bool :=
  let test_data := [0x12; 0x34; 0x56; 0x78] in
  let file_offset := 4 in
  decrypted_byte_by_byte ← byte_by_byte_decrypt test_data file_offset;
  decrypted_new ← u32_xor_decrypt test_data file_offset;
  Some (bool_decide (decrypted_byte_by_byte = decrypted_new)).

(** ** The top-level run (lines 171-196) *)

(** The summary loop, lines 183-188. *)
Definition summary_all_pass (results : list (string * bool)) : bool :=
  fold_left (fun all_pass (r : string * bool) => if negb r.2 then false else all_pass)
            results true.

(** The run over four test functions; a test that raises ends the
    interpreter with an uncaught exception, whose exit status is 1. *)
Definition run_tests (t1 t2 t3 t4 : option bool) : Z :=
  match
    r1 ← t1; r2 ← t2; r3 ← t3; r4 ← t4;
    Some [("Magic Decryption", r1); ("Size Decryption", r2);
          ("Key Rotation", r3); ("Byte-by-byte vs u32", r4)]%string
  with
  | Some results => if summary_all_pass results then 0 else 1
  | None => 1
  end.

Definition main : Z :=
  run_tests test_magic_decryption test_size_decryption
            test_key_rotation test_byte_by_byte_vs_u32.

End XorScript.

(** ** The codec and the container scanner of the specification *)

Module Codec.
Import XorScript.

(** Modelled from the spec: [ChunkedXorCodec.decrypt] (section 4.1), which
    is not among the source files.  For the byte at position [i] of the
    slice: [p = absolute_offset + i], [chunk = p / 4],
    [byte_in_chunk = p % 4], [key = KEY1 if chunk % 2 == 0 else KEY2],
    output byte [= input[i] XOR key[byte_in_chunk]]. *)
Definition decrypt (bytes : list Z) (absolute_offset : Z) : list Z :=
  imap (fun i x =>
          let p := absolute_offset + Z.of_nat i in
          let chunk := p / 4 in
          let byte_in_chunk := p mod 4 in
          let key := if chunk mod 2 =? 0 then XOR_KEY1 else XOR_KEY2 in
          Z.lxor x (default 0 (key !! Z.to_nat byte_in_chunk)))
       bytes.

(** Modelled from the spec: the error taxonomy of section 7. *)
Inductive FormatError : Set := BadMagic | TruncatedInput.

(** Modelled from the spec: the header facts [scan_header] returns
    (section 4.2). *)
Record Header : Set := { magic_valid : bool; declared_length : Z }.

(** Modelled from the spec: the reading of bytes as a little-endian
    unsigned integer (section 4.2, step 3). *)
Definition le_unsigned (b : list Z) : Z :=
  foldr (fun x acc => x + 256 * acc) 0 b.

(** Modelled from the spec: [ContainerScanner.scan_header] (section 4.2),
    which is not among the source files.  Eight bytes at
    [absolute_offset] are decrypted; the first four are compared with the
    expected magic, the next four are the little-endian payload length. *)
Definition scan_header (stream : list Z) (absolute_offset : Z)
  : FormatError + Header :=
  let raw := take 8 (drop (Z.to_nat absolute_offset) stream) in
  if (length raw <? 8)%nat then inl TruncatedInput
  else
    let plain := decrypt raw absolute_offset in
    if bool_decide (take 4 plain = EXPECTED_MAGIC) then
      inr {| magic_valid := true; declared_length := le_unsigned (drop 4 plain) |}
    else inl BadMagic.

(** Modelled from the spec: the caller's walk over concatenated records
    (section 4.2), [next_offset = this_offset + 8 + declared_length]. *)
Definition next_offset (this_offset declared_length : Z) : Z :=
  this_offset + 8 + declared_length.

End Codec.

(** ** The benchmark-filter patcher *)

Module FilterPatch.

Local Open Scope string_scope.

(** The double-quote character. *)
Definition dquote : ascii := ascii_of_nat 34.

(** The fixed head of the pattern of line 45 and of the replacement of
    line 46: [-filter=] followed by a double quote. *)
Definition filter_head : string := "-filter=" +:+ String dquote "".

(** The replacement of line 46: [-filter=], then [new_filter] between
    double quotes. *)
Definition filter_replacement (new_filter : string) : string :=
  filter_head +:+ new_filter +:+ String dquote "".

(** The text up to and including the first double quote of [s]: what
    the tail of the pattern (any run of characters other than a double
    quote, then a double quote) matches at the start of [s], if anything.
    The negated class also matches a newline. *)
Fixpoint upto_quote (s : string) : option string :=
  match s with
  | "" => None
  | String c rest =>
      if Ascii.eqb c dquote then Some (String c "")
      else option_map (String c) (upto_quote rest)
  end.

(** [s] with [p] removed from its start, when [p] is a prefix of [s]. *)
Fixpoint strip_prefix (p s : string) : option string :=
  match p, s with
  | "", _ => Some s
  | String a p', String b s' => if Ascii.eqb a b then strip_prefix p' s' else None
  | String _ _, "" => None
  end.

(** The match of the whole pattern at the very start of [s], if any. *)
Definition match_filter_at (s : string) : option string :=
  match strip_prefix filter_head s with
  | Some rest => option_map (fun body => filter_head +:+ body) (upto_quote rest)
  | None => None
  end.

(** The scan of [re.sub] for this pattern: leftmost matches, none
    overlapping; each match is replaced by [emit] of its text and the
    scan goes on behind it.  [skip] counts the characters of the current
    match still to drop. *)
Fixpoint sub_matches (emit : string -> string) (skip : nat) (s : string) : string :=
  match s with
  | "" => ""
  | String c rest =>
      match skip with
      | S k => sub_matches emit k rest
      | O =>
          match match_filter_at s with
          | Some m => emit m +:+ sub_matches emit (String.length m - 1)%nat rest
          | None => String c (sub_matches emit 0 rest)
          end
      end
  end.

(** Whether a double quote occurs in [s]. *)
Fixpoint has_quote (s : string) : bool :=
  match s with
  | "" => false
  | String c rest => Ascii.eqb c dquote || has_quote rest
  end.

(** A file system as the function sees it.  [read_text w p] is
    [open(p, 'r')] followed by [f.read()], [None] when either raises.
    [write_text w p s] is [open(p, 'w')] followed by [f.write(s)]: the
    file system afterwards, and whether both completed without raising
    (a failed write may still have truncated the file). *)
Class FileSystem (W : Type) : Type := {
  read_text : W -> string -> option string;
  write_text : W -> string -> string -> W * bool
}.

Section Update.

Context {W : Type} `{FileSystem W}.

(** The expansion of a replacement template by [re]: [None] when [re]
    raises [re.error] on it (a bad escape, a reference to a group the
    pattern does not have), otherwise the text put in place of a match,
    as a function of the matched text. *)
Variable expand_template : string -> option (string -> string).

(** [re.sub(pattern, replacement, content)] for the pattern of line 45.
    The template is expanded before the scan, so an invalid one raises
    whether or not the pattern matches. *)
Definition re_sub_filter (replacement content : string) : option string :=
  emit ← expand_template replacement;
  Some (sub_matches emit 0 content).

(** Lines 38-55.  The message printed to stderr in the handler is left
    out. *)
Definition update_filter_in_file (w : W) (filepath new_filter : string) : W * bool :=
  match read_text w filepath with
  | None => (w, false)
  | Some content =>
      let replacement := filter_replacement new_filter in
      match re_sub_filter replacement content with
      | None => (w, false)
      | Some new_content =>
          if bool_decide (new_content ≠ content) then
            let '(w', completed) := write_text w filepath new_content in
            if completed then (w', true) else (w', false)
          else (w, false)
      end
  end.

End Update.

(** A template without a backslash stands for itself. *)
Definition literal_template (replacement : string) : option (string -> string) :=
  Some (fun _ => replacement).

(** A file system of text files in memory: every file listed can be
    read, and written unless its path is in [read_only]. *)
Record MemFs : Type := { files : gmap string string; read_only : gset string }.

#[global] Instance mem_fs : FileSystem MemFs := {
  read_text w p := files w !! p;
  write_text w p s :=
    if bool_decide (p ∈ read_only w) then (w, false)
    else ({| files := <[p := s]> (files w); read_only := read_only w |}, true)
}.

(** A benchmark script with one filter, and a file system holding it
    twice: once writable, once read-only. *)
Definition script_with (name : string) : string :=
  "bench_bitcoin " +:+ filter_replacement name +:+ " -min-time=1000".

Definition sample_fs : MemFs :=
  {| files := <["core/a-bench.sh" := script_with "Old"]>
                (<["core/b-bench.sh" := script_with "Old"]> ∅);
     read_only := {["core/b-bench.sh"]} |}.

End FilterPatch.

(** ** The run of the patcher over the benchmark scripts *)

Module FilterScript.
Import FilterPatch.

Local Open Scope string_scope.

(** [str.lower()] on ASCII text; benchmark names are C++ identifiers. *)
Definition lower_char (c : ascii) : ascii :=
  let n := nat_of_ascii c in
  if ((65 <=? n) && (n <=? 90))%nat then ascii_of_nat (n + 32) else c.

Fixpoint lower (s : string) : string :=
  match s with
  | "" => ""
  | String c rest => String (lower_char c) (lower rest)
  end.

(** [needle in haystack] on strings. *)
Fixpoint contains (needle haystack : string) : bool :=
  match strip_prefix needle haystack with
  | Some _ => true
  | None =>
      match haystack with
      | "" => false
      | String _ rest => contains needle rest
      end
  end.

(** [word in b.lower()] (lines 82, 106, 113). *)
Definition lower_contains (word b : string) : bool := contains word (lower b).

(** [re.search(pattern, b, re.I)] for the patterns of lines 67-69 and 89:
    alternations of lower-case words, given here as the list of the
    words.  On ASCII text such a pattern is found when one of the words
    occurs in [b] whatever the case of the letters of [b]. *)
Definition re_search_i (alternatives : list string) (b : string) : bool :=
  existsb (fun word => contains word (lower b)) alternatives.

(** The parsed mapping file as far as the script reads it: the object
    under the key [categories], if the file has one, from category names
    to lists of benchmark names. *)
Definition category (data : option (gmap string (list string))) (name : string)
  : list string :=
  List.filter (fun b => negb (String.eqb b ""))
              (default [] (default ∅ data !! name)).

Section Run.

Context {W : Type} `{FileSystem W}.
Variable expand_template : string -> option (string -> string).

(** [Path.exists()]. *)
Variable path_exists : W -> string -> bool.

(** [str(CORE_SCRIPTS_DIR)]. *)
Variable core_dir : string.

(** [CORE_SCRIPTS_DIR / name]. *)
Definition script_path (name : string) : string := core_dir +:+ "/" +:+ name.

(** [if update_filter_in_file(script, filter_str): print(...)]: the file
    system afterwards and the names printed as updated so far. *)
Definition report (st : W * list string) (name filter_str : string)
  : W * list string :=
  let '(w', updated) :=
    update_filter_in_file expand_template st.1 (script_path name) filter_str in
  (w', if updated then (st.2 ++ [name])%list else st.2).

(** Lines 58-63, 96-101, 119-124 and 127-132: the whole category, joined
    with [|]. *)
Definition update_joined (cat : list string) (name : string)
    (st : W * list string) : W * list string :=
  match cat with
  | [] => st
  | _ :: _ =>
      if path_exists st.1 (script_path name)
      then report st name (String.concat "|" cat)
      else st
  end.

(** Lines 71-77, 80-85, 104-109 and 111-116: the first benchmark of the
    category that matches. *)
Definition update_first (cat : list string) (matches : string -> bool)
    (name : string) (st : W * list string) : W * list string :=
  if path_exists st.1 (script_path name) && negb (bool_decide (cat = [])) then
    match List.filter matches cat with
    | [] => st
    | first_match :: _ => report st name first_match
    end
  else st.

(** Lines 87-93: the first three matching benchmarks, joined with [|]. *)
Definition update_first_three (cat : list string) (matches : string -> bool)
    (name : string) (st : W * list string) : W * list string :=
  if path_exists st.1 (script_path name) && negb (bool_decide (cat = [])) then
    match List.filter matches cat with
    | [] => st
    | matching => report st name (String.concat "|" (take 3 matching))
    end
  else st.

(** The names of the scripts the run may patch, in the order of the run. *)
Definition script_names : list string :=
  ["mempool-operations-bench.sh"; "transaction-serialization-bench.sh";
   "transaction-id-bench.sh"; "transaction-sighash-bench.sh";
   "block-assembly-bench.sh"; "block-serialization-bench.sh";
   "script-verification-bench.sh"; "ripemd160-bench.sh";
   "merkle-tree-bench.sh"; "base58-bech32-bench.sh"; "utxo-caching-bench.sh"].

(** Lines 19-26 and 57-132, from the parsed mapping file on: the file
    system after the run and the script names printed as updated.  The
    check of lines 11-14 that the mapping file exists, its parsing and the
    counts printed at lines 28-36 are left out. *)
Definition run_updates (data : option (gmap string (list string))) (w : W)
  : W * list string :=
  let mempool := category data "mempool" in
  let transaction := category data "transaction" in
  let block := category data "block" in
  let script_benchmarks := category data "script" in
  let hash_benchmarks := category data "hash" in
  let encoding := category data "encoding" in
  let utxo := category data "utxo" in
  let st := (w, []) in
  let st := update_joined mempool "mempool-operations-bench.sh" st in
  let st := update_first transaction (re_search_i ["serialization"])
              "transaction-serialization-bench.sh" st in
  let st := update_first transaction (re_search_i ["id"; "txid"])
              "transaction-id-bench.sh" st in
  let st := update_first transaction (re_search_i ["sighash"])
              "transaction-sighash-bench.sh" st in
  let st := update_first block (lower_contains "assemble")
              "block-assembly-bench.sh" st in
  let st := update_first_three block (re_search_i ["read"; "write"; "deserialize"])
              "block-serialization-bench.sh" st in
  let st := update_joined script_benchmarks "script-verification-bench.sh" st in
  let st := update_first hash_benchmarks (lower_contains "ripemd")
              "ripemd160-bench.sh" st in
  let st := update_first hash_benchmarks (lower_contains "merkle")
              "merkle-tree-bench.sh" st in
  let st := update_joined encoding "base58-bech32-bench.sh" st in
  update_joined utxo "utxo-caching-bench.sh" st.

End Run.

(** Whether a path names a file of the in-memory file system. *)
Definition mem_exists (w : MemFs) (p : string) : bool :=
  bool_decide (is_Some (files w !! p)).

(** A mapping file with two categories, and a directory with two of the
    scripts and a file that is none of them. *)
Definition sample_data : option (gmap string (list string)) :=
  Some (<["mempool" := ["MempoolEviction"; ""; "MempoolCheck"]]>
          (<["transaction" := ["TxSerialize"; "TransactionIdCalculation"]]> ∅)).

Definition scripts_fs : MemFs :=
  {| files := <["core/mempool-operations-bench.sh" := script_with "Old"]>
                (<["core/transaction-id-bench.sh" := script_with "Old"]>
                   (<["core/notes.txt" := "no filter here"]> ∅));
     read_only := ∅ |}.

Definition empty_fs : MemFs := {| files := ∅; read_only := ∅ |}.

End FilterScript.

(** ** Notions used in the statements *)

(** [re] takes a replacement template as it stands: Python does so for a
    template that holds no backslash. *)
Definition taken_literally (expand_template : string -> option (string -> string))
    (replacement : string) : Prop :=
  expand_template replacement = Some (fun _ => replacement).

(** A file written and closed is read back as written. *)
Definition reads_back (W : Type) `{FilterPatch.FileSystem W} : Prop :=
  forall (w w' : W) (p s : string),
    FilterPatch.write_text w p s = (w', true) -> FilterPatch.read_text w' p = Some s.

(** Writing one file, completed or not, leaves what is read from every
    other path as it was. *)
Definition writes_one_file (W : Type) `{FilterPatch.FileSystem W} : Prop :=
  forall (w : W) (p s q : string),
    q <> p ->
    FilterPatch.read_text (FilterPatch.write_text w p s).1 q
    = FilterPatch.read_text w q.

(** The number of double quotes in [s]. *)
Fixpoint quotes (s : string) : nat :=
  match s with
  | EmptyString => 0%nat
  | String c rest =>
      ((if Ascii.eqb c FilterPatch.dquote then 1 else 0) + quotes rest)%nat
  end.

(** The little-endian word of four bytes. *)
Definition word_of (b0 b1 b2 b3 : Z) : Z :=
  Z.lor b0 (Z.lor (Z.shiftl b1 8) (Z.lor (Z.shiftl b2 16) (Z.shiftl b3 24))).

Definition is_byte (x : Z) : Prop := 0 <= x < 256.

(** The byte of a four-byte key that lines up with stream position [p]. *)
Definition key_byte (key : list Z) (p : Z) : Z :=
  default 0 (key !! Z.to_nat (p mod 4)).

(** [out] is [data], found at [absolute_offset] in the stream, with every
    byte XOR-ed with the key of the chunk that byte itself lies in. *)
Definition uses_own_chunk_key (data : list Z) (absolute_offset : Z) (out : list Z)
  : Prop :=
  length out = length data /\
  forall (i : nat) (x : Z),
    data !! i = Some x ->
    let p := absolute_offset + Z.of_nat i in
    out !! i = Some (Z.lxor x (key_byte (XorScript.key_at p) p)).

(** [out] is [data] with every byte XOR-ed with the key of the chunk of
    the slice's first byte, the key byte being picked by the byte's own
    stream position. *)
Definition uses_first_chunk_key (data : list Z) (file_offset : Z) (out : list Z)
  : Prop :=
  length out = length data /\
  forall (i : nat) (x : Z),
    data !! i = Some x ->
    out !! i = Some (Z.lxor x (key_byte (XorScript.key_at file_offset)
                                        (file_offset + Z.of_nat i))).

(** * Properties *)

(** A list of length four, taken apart into its elements. *)
Ltac four_elements data Hlen :=
  destruct data as [| ?d0 [| ?d1 [| ?d2 [| ?d3 [| ? ?]]]]]; try discriminate Hlen.

Section BitFacts.

(** Range of the bitwise operations on [n]-bit values. *)
Lemma lxor_range (n a b : Z) :
  0 <= n -> 0 <= a < 2 ^ n -> 0 <= b < 2 ^ n -> 0 <= Z.lxor a b < 2 ^ n.
Proof.
  intros Hn Ha Hb.
  assert (E : Z.lxor a b = Z.lxor a b mod 2 ^ n).
  { apply Z.bits_inj'; intros i Hi.
    rewrite Z.testbit_mod_pow2 by lia.
    destruct (Z.ltb_spec i n) as [Hlt | Hge]; [reflexivity |].
    rewrite Z.lxor_spec.
    rewrite <- (Z.mod_small a (2 ^ n)), <- (Z.mod_small b (2 ^ n)) by lia.
    rewrite !Z.mod_pow2_bits_high by lia. reflexivity. }
  rewrite E. apply Z.mod_pos_bound. lia.
Qed.

Lemma lor_range (n a b : Z) :
  0 <= n -> 0 <= a < 2 ^ n -> 0 <= b < 2 ^ n -> 0 <= Z.lor a b < 2 ^ n.
Proof.
  intros Hn Ha Hb.
  assert (E : Z.lor a b = Z.lor a b mod 2 ^ n).
  { apply Z.bits_inj'; intros i Hi.
    rewrite Z.testbit_mod_pow2 by lia.
    destruct (Z.ltb_spec i n) as [Hlt | Hge]; [reflexivity |].
    rewrite Z.lor_spec.
    rewrite <- (Z.mod_small a (2 ^ n)), <- (Z.mod_small b (2 ^ n)) by lia.
    rewrite !Z.mod_pow2_bits_high by lia. reflexivity. }
  rewrite E. apply Z.mod_pos_bound. lia.
Qed.

Lemma testbit_high (n a i : Z) :
  0 <= a < 2 ^ n -> n <= i -> Z.testbit a i = false.
Proof.
  intros Ha Hi. destruct (Z.le_gt_cases 0 n) as [Hn | Hn].
  - rewrite <- (Z.mod_small a (2 ^ n)) by lia.
    apply Z.mod_pow2_bits_high. lia.
  - rewrite Z.pow_neg_r in Ha by lia. lia.
Qed.

(** Taking one byte of a word commutes with XOR. *)
Lemma byte_of_lxor (x k s : Z) :
  0 <= s ->
  Z.land (Z.shiftr (Z.lxor x k) s) 255
  = Z.lxor (Z.land (Z.shiftr x s) 255) (Z.land (Z.shiftr k s) 255).
Proof.
  intros Hs. apply Z.bits_inj'; intros i Hi.
  rewrite Z.lxor_spec, !Z.land_spec, !Z.shiftr_spec, Z.lxor_spec by lia.
  destruct (Z.testbit 255 i), (Z.testbit x (i + s)), (Z.testbit k (i + s));
    reflexivity.
Qed.

End BitFacts.

(** ** The [struct] conversions *)

Section Struct.
Import XorScript.

Lemma in_byte_range_spec (x : Z) : in_byte_range x = true <-> is_byte x.
Proof. unfold in_byte_range, is_byte. rewrite andb_true_iff. lia. Qed.

Lemma byte_testbit_high (b i : Z) : is_byte b -> 8 <= i -> Z.testbit b i = false.
Proof. intros Hb Hi. apply (testbit_high 8); [exact Hb | exact Hi]. Qed.

Lemma shifted_byte_range (b s : Z) :
  is_byte b -> 0 <= s <= 24 -> 0 <= Z.shiftl b s < 2 ^ 32.
Proof.
  unfold is_byte. intros Hb Hs. rewrite Z.shiftl_mul_pow2 by lia.
  assert (0 < 2 ^ s) by (apply Z.pow_pos_nonneg; lia).
  assert (2 ^ s <= 2 ^ 24) by (apply Z.pow_le_mono_r; lia).
  change (2 ^ 32) with (256 * 2 ^ 24). nia.
Qed.

Lemma word_of_range (b0 b1 b2 b3 : Z) :
  is_byte b0 -> is_byte b1 -> is_byte b2 -> is_byte b3 ->
  0 <= word_of b0 b1 b2 b3 < 2 ^ 32.
Proof.
  intros H0 H1 H2 H3. unfold word_of.
  repeat apply lor_range; try lia;
    try (apply shifted_byte_range; [assumption | lia]).
  unfold is_byte in H0. change (2 ^ 32) with 4294967296. lia.
Qed.

(** Bits of a byte taken out of a word. *)
Ltac word_bits :=
  apply Z.bits_inj'; intros i Hi;
  change 255 with (Z.ones 8); rewrite Z.land_ones by lia;
  rewrite Z.testbit_mod_pow2 by lia;
  destruct (Z.ltb_spec i 8) as [Hlt | Hge]; simpl andb;
  [ unfold word_of;
    rewrite ?Z.shiftr_spec, !Z.lor_spec, !Z.shiftl_spec by lia;
    repeat match goal with
      | |- context [Z.testbit ?b ?j] =>
          first [ rewrite (byte_testbit_high b j) by (assumption || lia)
                | rewrite (Z.testbit_neg_r b j) by lia ]
      end;
    rewrite ?orb_false_r, ?orb_false_l; f_equal; lia
  | symmetry; apply byte_testbit_high; assumption ].

Lemma word_byte0 (b0 b1 b2 b3 : Z) :
  is_byte b0 -> is_byte b1 -> is_byte b2 -> is_byte b3 ->
  Z.land (word_of b0 b1 b2 b3) 255 = b0.
Proof. intros H0 H1 H2 H3. word_bits. Qed.

Lemma word_byte1 (b0 b1 b2 b3 : Z) :
  is_byte b0 -> is_byte b1 -> is_byte b2 -> is_byte b3 ->
  Z.land (Z.shiftr (word_of b0 b1 b2 b3) 8) 255 = b1.
Proof. intros H0 H1 H2 H3. word_bits. Qed.

Lemma word_byte2 (b0 b1 b2 b3 : Z) :
  is_byte b0 -> is_byte b1 -> is_byte b2 -> is_byte b3 ->
  Z.land (Z.shiftr (word_of b0 b1 b2 b3) 16) 255 = b2.
Proof. intros H0 H1 H2 H3. word_bits. Qed.

Lemma word_byte3 (b0 b1 b2 b3 : Z) :
  is_byte b0 -> is_byte b1 -> is_byte b2 -> is_byte b3 ->
  Z.land (Z.shiftr (word_of b0 b1 b2 b3) 24) 255 = b3.
Proof. intros H0 H1 H2 H3. word_bits. Qed.

Lemma u32_from_bytes_four (b0 b1 b2 b3 : Z) :
  is_byte b0 -> is_byte b1 -> is_byte b2 -> is_byte b3 ->
  u32_from_bytes [b0; b1; b2; b3] = Some (word_of b0 b1 b2 b3).
Proof.
  intros H0 H1 H2 H3. unfold u32_from_bytes.
  cbn [forallb].
  rewrite (proj2 (in_byte_range_spec b0)), (proj2 (in_byte_range_spec b1)),
    (proj2 (in_byte_range_spec b2)), (proj2 (in_byte_range_spec b3)) by assumption.
  reflexivity.
Qed.

Lemma bytes_from_u32_in_range (v : Z) :
  0 <= v < 2 ^ 32 ->
  bytes_from_u32 v
  = Some [Z.land v 255; Z.land (Z.shiftr v 8) 255;
          Z.land (Z.shiftr v 16) 255; Z.land (Z.shiftr v 24) 255].
Proof.
  intros Hv. unfold bytes_from_u32.
  destruct (Z.leb_spec 0 v); [| lia].
  destruct (Z.ltb_spec v (2 ^ 32)); [| lia]. reflexivity.
Qed.

(** Packing the word read from four bytes gives the bytes back. *)
Lemma bytes_from_u32_word_of (b0 b1 b2 b3 : Z) :
  is_byte b0 -> is_byte b1 -> is_byte b2 -> is_byte b3 ->
  bytes_from_u32 (word_of b0 b1 b2 b3) = Some [b0; b1; b2; b3].
Proof.
  intros H0 H1 H2 H3.
  rewrite bytes_from_u32_in_range by (apply word_of_range; assumption).
  rewrite word_byte0, word_byte1, word_byte2, word_byte3 by assumption.
  reflexivity.
Qed.

End Struct.

(** ** Key selection *)

Section Keys.
Import XorScript.

Lemma key_at_cases (pos : Z) : key_at pos = XOR_KEY1 \/ key_at pos = XOR_KEY2.
Proof. unfold key_at. destruct (use_key1 pos); [left | right]; reflexivity. Qed.

Lemma key_at_length (pos : Z) : length (key_at pos) = 4%nat.
Proof. destruct (key_at_cases pos) as [-> | ->]; reflexivity. Qed.

Lemma key_at_bytes (pos : Z) : Forall is_byte (key_at pos).
Proof.
  destruct (key_at_cases pos) as [-> | ->];
    repeat constructor; unfold is_byte; lia.
Qed.

(** The 32-bit key is the little-endian word of the byte key. *)
Lemma key_u32_at_word (pos : Z) :
  exists k0 k1 k2 k3,
    key_at pos = [k0; k1; k2; k3]
    /\ (is_byte k0 /\ is_byte k1 /\ is_byte k2 /\ is_byte k3)
    /\ key_u32_at pos = Some (word_of k0 k1 k2 k3).
Proof.
  unfold key_u32_at, key_at. destruct (use_key1 pos).
  - exists 0x84, 0x22, 0xe9, 0xad. unfold is_byte. repeat split; lia.
  - exists 0xb7, 0x8f, 0xff, 0x14. unfold is_byte. repeat split; lia.
Qed.

(** The chunk, hence the key, is the same all over an aligned group. *)
Lemma use_key1_aligned (pos d : Z) :
  pos mod 4 = 0 -> 0 <= d < 4 -> use_key1 (pos + d) = use_key1 pos.
Proof.
  intros Hal Hd. unfold use_key1.
  replace ((pos + d) / 4) with (pos / 4); [reflexivity |].
  Z.div_mod_to_equations. lia.
Qed.

Lemma key_at_aligned (pos d : Z) :
  pos mod 4 = 0 -> 0 <= d < 4 -> key_at (pos + d) = key_at pos.
Proof. intros Hal Hd. unfold key_at. rewrite use_key1_aligned; auto. Qed.

Lemma key_byte_lookup (key : list Z) (p : Z) :
  length key = 4%nat -> key !! Z.to_nat (p mod 4) = Some (key_byte key p).
Proof.
  intros Hlen. unfold key_byte.
  destruct (key !! Z.to_nat (p mod 4)) as [k |] eqn:E; [reflexivity |].
  apply lookup_ge_None in E.
  pose proof (Z.mod_pos_bound p 4 ltac:(lia)). lia.
Qed.

Lemma key_byte_aligned (k0 k1 k2 k3 pos : Z) :
  pos mod 4 = 0 ->
  key_byte [k0; k1; k2; k3] pos = k0
  /\ key_byte [k0; k1; k2; k3] (pos + 1) = k1
  /\ key_byte [k0; k1; k2; k3] (pos + 2) = k2
  /\ key_byte [k0; k1; k2; k3] (pos + 3) = k3.
Proof.
  intros Hal. unfold key_byte.
  replace ((pos + 1) mod 4) with 1 by (Z.div_mod_to_equations; lia).
  replace ((pos + 2) mod 4) with 2 by (Z.div_mod_to_equations; lia).
  replace ((pos + 3) mod 4) with 3 by (Z.div_mod_to_equations; lia).
  rewrite Hal. repeat split; reflexivity.
Qed.

End Keys.

(** ** The two methods of the script on four bytes *)

Section Methods.
Import XorScript.

(** The word-wise method XORs byte [i] of the data with byte [i] of the
    key of the chunk of [file_offset]. *)
Lemma u32_xor_decrypt_four (d0 d1 d2 d3 file_offset : Z) :
  is_byte d0 -> is_byte d1 -> is_byte d2 -> is_byte d3 ->
  u32_xor_decrypt [d0; d1; d2; d3] file_offset
  = Some (zip_with Z.lxor [d0; d1; d2; d3] (key_at file_offset)).
Proof.
  intros H0 H1 H2 H3.
  destruct (key_u32_at_word file_offset)
    as (k0 & k1 & k2 & k3 & Hkey & (K0 & K1 & K2 & K3) & Hword).
  unfold u32_xor_decrypt. rewrite Hword, Hkey. cbn [mbind option_bind].
  rewrite u32_from_bytes_four by assumption. cbn [mbind option_bind].
  pose proof (word_of_range d0 d1 d2 d3 H0 H1 H2 H3) as Rd.
  pose proof (word_of_range k0 k1 k2 k3 K0 K1 K2 K3) as Rk.
  rewrite bytes_from_u32_in_range by (apply lxor_range; lia).
  rewrite <- (Z.shiftr_0_r (Z.lxor (word_of d0 d1 d2 d3) (word_of k0 k1 k2 k3))) at 1.
  rewrite !byte_of_lxor by lia. rewrite !Z.shiftr_0_r.
  rewrite !word_byte0, !word_byte1, !word_byte2, !word_byte3 by assumption.
  reflexivity.
Qed.

(** The byte-wise loop XORs byte [i] with the byte at index
    [(file_offset + i) % 4] of the key of the chunk of [file_offset]. *)
Lemma byte_by_byte_decrypt_four (d0 d1 d2 d3 file_offset : Z) :
  byte_by_byte_decrypt [d0; d1; d2; d3] file_offset
  = Some [Z.lxor d0 (key_byte (key_at file_offset) file_offset);
          Z.lxor d1 (key_byte (key_at file_offset) (file_offset + 1));
          Z.lxor d2 (key_byte (key_at file_offset) (file_offset + 2));
          Z.lxor d3 (key_byte (key_at file_offset) (file_offset + 3))].
Proof.
  unfold byte_by_byte_decrypt. cbn [seq for_each].
  unfold xor_in_place.
  rewrite !key_byte_lookup by apply key_at_length.
  cbn. rewrite Z.add_0_r. reflexivity.
Qed.

Lemma lxor_twice (x k : Z) : Z.lxor (Z.lxor x k) k = x.
Proof. rewrite Z.lxor_assoc, Z.lxor_nilpotent. apply Z.lxor_0_r. Qed.

Lemma lxor_byte (x k : Z) : is_byte x -> is_byte k -> is_byte (Z.lxor x k).
Proof. unfold is_byte. intros Hx Hk. apply (lxor_range 8); lia. Qed.

(** Each method of the script undoes itself at the same offset. *)
Lemma u32_xor_decrypt_twice (d0 d1 d2 d3 file_offset : Z) :
  is_byte d0 -> is_byte d1 -> is_byte d2 -> is_byte d3 ->
  exists enc : list Z,
    u32_xor_decrypt [d0; d1; d2; d3] file_offset = Some enc
    /\ u32_xor_decrypt enc file_offset = Some [d0; d1; d2; d3].
Proof.
  intros H0 H1 H2 H3.
  destruct (key_u32_at_word file_offset)
    as (k0 & k1 & k2 & k3 & Hkey & (K0 & K1 & K2 & K3) & _).
  exists [Z.lxor d0 k0; Z.lxor d1 k1; Z.lxor d2 k2; Z.lxor d3 k3].
  rewrite !u32_xor_decrypt_four by (try apply lxor_byte; assumption).
  rewrite Hkey. cbn [zip_with]. rewrite !lxor_twice. auto.
Qed.

Lemma byte_by_byte_decrypt_twice (d0 d1 d2 d3 file_offset : Z) :
  exists enc : list Z,
    byte_by_byte_decrypt [d0; d1; d2; d3] file_offset = Some enc
    /\ byte_by_byte_decrypt enc file_offset = Some [d0; d1; d2; d3].
Proof.
  eexists. split; [apply byte_by_byte_decrypt_four |].
  rewrite byte_by_byte_decrypt_four, !lxor_twice. reflexivity.
Qed.

End Methods.

(** ** The codec of the specification *)

Section CodecFacts.
Import XorScript.

Lemma decrypt_length (b : list Z) (o : Z) : length (Codec.decrypt b o) = length b.
Proof. unfold Codec.decrypt. apply length_imap. Qed.

(** Each output byte is the input byte XOR-ed with the byte, at the
    position's place in its chunk, of the key of the position's chunk. *)
Lemma decrypt_lookup (b : list Z) (o : Z) (i : nat) :
  Codec.decrypt b o !! i
  = (fun x => Z.lxor x (key_byte (key_at (o + Z.of_nat i)) (o + Z.of_nat i)))
      <$> b !! i.
Proof. unfold Codec.decrypt. rewrite list_lookup_imap. reflexivity. Qed.

Lemma decrypt_uses_own_chunk_key (b : list Z) (o : Z) :
  uses_own_chunk_key b o (Codec.decrypt b o).
Proof.
  split; [apply decrypt_length |].
  intros i x Hx p. rewrite decrypt_lookup, Hx. reflexivity.
Qed.

(** Two outputs that both take, for every byte, the key of the byte's own
    chunk are the same output. *)
Lemma uses_own_chunk_key_unique (data : list Z) (o : Z) (out1 out2 : list Z) :
  uses_own_chunk_key data o out1 -> uses_own_chunk_key data o out2 -> out1 = out2.
Proof.
  intros [L1 H1] [L2 H2]. apply list_eq; intros i.
  destruct (data !! i) as [x |] eqn:E.
  - rewrite (H1 i x E), (H2 i x E). reflexivity.
  - apply lookup_ge_None in E.
    rewrite (proj2 (lookup_ge_None out1 i)), (proj2 (lookup_ge_None out2 i)) by lia.
    reflexivity.
Qed.

Lemma decrypt_decrypt (b : list Z) (o : Z) :
  Codec.decrypt (Codec.decrypt b o) o = b.
Proof.
  apply list_eq; intros i. rewrite !decrypt_lookup.
  destruct (b !! i) as [x |]; [| reflexivity].
  cbn [fmap option_fmap option_map]. f_equal. apply lxor_twice.
Qed.

(** Decrypting a stream in two pieces, the second at its own absolute
    offset, is decrypting it in one piece. *)
Lemma decrypt_app (b1 b2 : list Z) (o : Z) :
  Codec.decrypt (b1 ++ b2) o
  = Codec.decrypt b1 o ++ Codec.decrypt b2 (o + Z.of_nat (length b1)).
Proof.
  apply list_eq; intros i. rewrite decrypt_lookup.
  destruct (Nat.lt_ge_cases i (length b1)) as [Hlt | Hge].
  - rewrite !lookup_app_l by (rewrite ?decrypt_length; exact Hlt).
    rewrite decrypt_lookup. reflexivity.
  - rewrite !lookup_app_r by (rewrite ?decrypt_length; exact Hge).
    rewrite decrypt_lookup, decrypt_length.
    replace (o + Z.of_nat (length b1) + Z.of_nat (i - length b1))
      with (o + Z.of_nat i) by lia.
    reflexivity.
Qed.

(** The bytes [k, n) of a stream decrypted on their own, at offset [k],
    are the bytes [k, n) of the stream decrypted from offset 0. *)
Lemma decrypt_drop (b : list Z) (k : nat) :
  Codec.decrypt (drop k b) (Z.of_nat k) = drop k (Codec.decrypt b 0).
Proof.
  destruct (Nat.le_gt_cases k (length b)) as [Hle | Hgt].
  - rewrite <- (take_drop k b) at 2. rewrite decrypt_app.
    rewrite drop_app_length'
      by (rewrite decrypt_length, length_take; lia).
    rewrite length_take, Nat.min_l by exact Hle. reflexivity.
  - rewrite !drop_ge by (rewrite ?decrypt_length; lia). reflexivity.
Qed.

(** C1: decryption is an involution.  For every byte sequence [b] and
    every offset [o], decrypting at offset [o] the result of decrypting
    [b] at offset [o] gives [b] back; the output has the length of the
    input. *)
Theorem decrypt_involutive (b : list Z) (o : Z) :
  length (Codec.decrypt b o) = length b
  /\ Codec.decrypt (Codec.decrypt b o) o = b.
Proof.
  split; [apply decrypt_length | apply decrypt_decrypt].
Qed.

(** C3: in the per-byte decryption every byte of the input slice is
    XOR-ed with the key selected by that byte's own chunk, computed from
    its absolute stream position [absolute_offset + i]; in particular,
    for a slice of length 4 starting at offset 2, the bytes at positions
    2 and 3 use the key of chunk 0 and the bytes at positions 4 and 5
    use the key of chunk 1, within the one call. *)
Theorem decrypt_key_of_own_chunk (bytes : list Z) (absolute_offset : Z) :
  uses_own_chunk_key bytes absolute_offset (Codec.decrypt bytes absolute_offset)
  /\ (2 / 4 = 0 /\ 3 / 4 = 0 /\ 4 / 4 = 1 /\ 5 / 4 = 1)
  /\ (key_at 2 = XOR_KEY1 /\ key_at 3 = XOR_KEY1
      /\ key_at 4 = XOR_KEY2 /\ key_at 5 = XOR_KEY2)
  /\ (forall b0 b1 b2 b3 : Z,
        Codec.decrypt [b0; b1; b2; b3] 2
        = [Z.lxor b0 (key_byte XOR_KEY1 2); Z.lxor b1 (key_byte XOR_KEY1 3);
           Z.lxor b2 (key_byte XOR_KEY2 4); Z.lxor b3 (key_byte XOR_KEY2 5)]
        /\ Codec.decrypt [b0; b1; b2; b3] 2
           = [Z.lxor b0 0xe9; Z.lxor b1 0xad; Z.lxor b2 0xb7; Z.lxor b3 0x8f]).
Proof.
  split; [apply decrypt_uses_own_chunk_key |].
  split; [repeat split; reflexivity |].
  split; [repeat split; reflexivity |].
  intros b0 b1 b2 b3.
  assert (E : Codec.decrypt [b0; b1; b2; b3] 2
              = [Z.lxor b0 (key_byte (key_at 2) 2); Z.lxor b1 (key_byte (key_at 3) 3);
                 Z.lxor b2 (key_byte (key_at 4) 4); Z.lxor b3 (key_byte (key_at 5) 5)]).
  { apply list_eq; intros i. rewrite decrypt_lookup.
    destruct i as [| [| [| [| i]]]]; reflexivity. }
  rewrite E. split; reflexivity.
Qed.

End CodecFacts.

(** ** Byte-wise against word-wise *)

Section Equivalence.
Import XorScript.

(** On an aligned group of four bytes the loop of the script takes, for
    every byte, the key of the byte's own chunk. *)
Lemma byte_by_byte_aligned (d0 d1 d2 d3 file_offset : Z) :
  file_offset mod 4 = 0 ->
  byte_by_byte_decrypt [d0; d1; d2; d3] file_offset
  = Some (zip_with Z.lxor [d0; d1; d2; d3] (key_at file_offset)).
Proof.
  intros Hal. rewrite byte_by_byte_decrypt_four.
  destruct (key_u32_at_word file_offset) as (k0 & k1 & k2 & k3 & Hkey & _ & _).
  rewrite Hkey.
  destruct (key_byte_aligned k0 k1 k2 k3 file_offset Hal) as (-> & -> & -> & ->).
  reflexivity.
Qed.

Lemma decrypt_aligned (d0 d1 d2 d3 o : Z) :
  o mod 4 = 0 ->
  Codec.decrypt [d0; d1; d2; d3] o = zip_with Z.lxor [d0; d1; d2; d3] (key_at o).
Proof.
  intros Hal.
  apply (uses_own_chunk_key_unique [d0; d1; d2; d3] o);
    [apply decrypt_uses_own_chunk_key |].
  destruct (key_u32_at_word o) as (k0 & k1 & k2 & k3 & Hkey & _ & _).
  destruct (key_byte_aligned k0 k1 k2 k3 o Hal) as (B0 & B1 & B2 & B3).
  split; [rewrite Hkey; reflexivity |].
  intros i x Hx p. subst p.
  rewrite key_at_aligned by (apply lookup_lt_Some in Hx; cbn in Hx; lia).
  rewrite Hkey.
  destruct i as [| [| [| [| i]]]]; cbn in Hx; try discriminate Hx;
    injection Hx as <-;
    change (Z.of_nat 0) with 0; change (Z.of_nat 1) with 1;
    change (Z.of_nat 2) with 2; change (Z.of_nat 3) with 3;
    rewrite ?Z.add_0_r, ?B0, ?B1, ?B2, ?B3; reflexivity.
Qed.

(** C2: for every offset divisible by 4 and every four bytes, the
    byte-wise loop and the word-wise method (little-endian 32-bit
    integers XOR-ed and written back little-endian) return the same four
    bytes, which are the bytes obtained by XOR-ing each input byte with
    the key byte chosen by the byte's own chunk and place in the chunk. *)
Theorem byte_wise_equals_word_wise (data : list Z) (absolute_offset : Z) :
  length data = 4%nat ->
  Forall is_byte data ->
  absolute_offset mod 4 = 0 ->
  exists out : list Z,
    byte_by_byte_decrypt data absolute_offset = Some out
    /\ u32_xor_decrypt data absolute_offset = Some out
    /\ length out = 4%nat
    /\ uses_own_chunk_key data absolute_offset out.
Proof.
  intros Hlen Hbytes Hal. four_elements data Hlen.
  apply Forall_cons in Hbytes as [H0 Hbytes].
  apply Forall_cons in Hbytes as [H1 Hbytes].
  apply Forall_cons in Hbytes as [H2 Hbytes].
  apply Forall_cons in Hbytes as [H3 _].
  exists (zip_with Z.lxor [d0; d1; d2; d3] (key_at absolute_offset)).
  split; [apply byte_by_byte_aligned; exact Hal |].
  split; [apply u32_xor_decrypt_four; assumption |].
  split.
  - rewrite length_zip_with, key_at_length. reflexivity.
  - rewrite <- decrypt_aligned by exact Hal. apply decrypt_uses_own_chunk_key.
Qed.

Lemma byte_wise_equals_word_wise_witness :
  exists out : list Z,
    byte_by_byte_decrypt [0x12; 0x34; 0x56; 0x78] 4 = Some out
    /\ u32_xor_decrypt [0x12; 0x34; 0x56; 0x78] 4 = Some out
    /\ length out = 4%nat
    /\ uses_own_chunk_key [0x12; 0x34; 0x56; 0x78] 4 out.
Proof.
  apply (byte_wise_equals_word_wise [0x12; 0x34; 0x56; 0x78] 4).
  - reflexivity.
  - repeat constructor; unfold is_byte; lia.
  - reflexivity.
Defined.

End Equivalence.

(** ** Key selection of the byte-wise loop *)

Section ByteWiseKey.
Import XorScript.

Lemma byte_by_byte_first_chunk (d0 d1 d2 d3 file_offset : Z) :
  exists out : list Z,
    byte_by_byte_decrypt [d0; d1; d2; d3] file_offset = Some out
    /\ uses_first_chunk_key [d0; d1; d2; d3] file_offset out.
Proof.
  eexists. split; [apply byte_by_byte_decrypt_four |].
  split; [reflexivity |].
  intros i x Hx.
  destruct i as [| [| [| [| i]]]]; cbn in Hx; try discriminate Hx;
    injection Hx as <-;
    change (Z.of_nat 0) with 0; change (Z.of_nat 1) with 1;
    change (Z.of_nat 2) with 2; change (Z.of_nat 3) with 3;
    rewrite ?Z.add_0_r; reflexivity.
Qed.

(** The byte-wise loop of the script takes its key once, from the chunk
    of [file_offset], and XORs byte [i] with the byte of that key at index
    [(file_offset + i) % 4]; at a multiple of 4, as in the script, this
    is for every byte the key of the byte's own chunk. *)
Lemma byte_by_byte_key_selection (data : list Z) (file_offset : Z) :
  length data = 4%nat ->
  exists out : list Z,
    byte_by_byte_decrypt data file_offset = Some out
    /\ uses_first_chunk_key data file_offset out
    /\ (file_offset mod 4 = 0 -> uses_own_chunk_key data file_offset out).
Proof.
  intros Hlen. four_elements data Hlen.
  destruct (byte_by_byte_first_chunk d0 d1 d2 d3 file_offset) as (out & Hout & Hfirst).
  exists out. split; [exact Hout |]. split; [exact Hfirst |].
  intros Hal.
  rewrite byte_by_byte_aligned in Hout by exact Hal.
  assert (E : out = Codec.decrypt [d0; d1; d2; d3] file_offset)
    by (rewrite decrypt_aligned by exact Hal; congruence).
  rewrite E. apply decrypt_uses_own_chunk_key.
Qed.

End ByteWiseKey.

(** ** The tests of the script *)

Section Tests.
Import XorScript.

Lemma magic_u32_decrypt :
  u32_xor_decrypt ENCRYPTED_MAGIC 0 = Some EXPECTED_MAGIC.
Proof.
  unfold ENCRYPTED_MAGIC.
  rewrite u32_xor_decrypt_four by (unfold is_byte; lia). reflexivity.
Qed.

Lemma test_magic_decryption_passes : test_magic_decryption = Some true.
Proof. unfold test_magic_decryption. rewrite magic_u32_decrypt. reflexivity. Qed.

(** C4: the encrypted magic [7d 9c 5d 74], at offset 0 (chunk 0, key
    [KEY1 = 84 22 e9 ad]), decrypts to the expected magic [f9 be b4 d9]. *)
Theorem magic_known_vector :
  0 / 4 = 0 /\ use_key1 0 = true /\ key_at 0 = [0x84; 0x22; 0xe9; 0xad]
  /\ u32_xor_decrypt [0x7d; 0x9c; 0x5d; 0x74] 0 = Some [0xf9; 0xbe; 0xb4; 0xd9]
  /\ byte_by_byte_decrypt [0x7d; 0x9c; 0x5d; 0x74] 0 = Some [0xf9; 0xbe; 0xb4; 0xd9]
  /\ test_magic_decryption = Some true.
Proof.
  split; [reflexivity |]. split; [reflexivity |]. split; [reflexivity |].
  split; [exact magic_u32_decrypt |]. split.
  - rewrite byte_by_byte_aligned by reflexivity. reflexivity.
  - exact test_magic_decryption_passes.
Qed.

Lemma test_key_rotation_passes : test_key_rotation = Some true.
Proof. reflexivity. Qed.

(** C5: for the offsets 0, 4, ..., 28 the key selected is KEY1, KEY2,
    KEY1, KEY2, KEY1, KEY2, KEY1, KEY2; and two offsets whose chunks
    [offset / 4] have the same parity select the same key. *)
Theorem key_rotation_by_chunk_parity :
  py_range 0 32 4 = [0; 4; 8; 12; 16; 20; 24; 28]
  /\ map key_name (py_range 0 32 4)
     = ["KEY1"; "KEY2"; "KEY1"; "KEY2"; "KEY1"; "KEY2"; "KEY1"; "KEY2"]%string
  /\ map key_at (py_range 0 32 4)
     = [XOR_KEY1; XOR_KEY2; XOR_KEY1; XOR_KEY2; XOR_KEY1; XOR_KEY2; XOR_KEY1; XOR_KEY2]
  /\ test_key_rotation = Some true
  /\ forall o1 o2 : Z,
       (o1 / 4) mod 2 = (o2 / 4) mod 2 ->
       key_name o1 = key_name o2 /\ key_at o1 = key_at o2
       /\ key_u32_at o1 = key_u32_at o2.
Proof.
  split; [reflexivity |]. split; [reflexivity |]. split; [reflexivity |].
  split; [exact test_key_rotation_passes |].
  intros o1 o2 Hpar.
  unfold key_name, key_at, key_u32_at, use_key1. rewrite Hpar. auto.
Qed.

Lemma key_rotation_by_chunk_parity_witness :
  key_name 4 = key_name 1000004 /\ key_at 4 = key_at 1000004
  /\ key_u32_at 4 = key_u32_at 1000004.
Proof.
  apply (proj2 (proj2 (proj2 (proj2 key_rotation_by_chunk_parity))) 4 1000004).
  reflexivity.
Defined.

(** Reading back the bytes of a 32-bit value gives the value. *)
Lemma word_of_bytes (v : Z) :
  0 <= v < 2 ^ 32 ->
  word_of (Z.land v 255) (Z.land (Z.shiftr v 8) 255)
          (Z.land (Z.shiftr v 16) 255) (Z.land (Z.shiftr v 24) 255) = v.
Proof.
  intros Hv. apply Z.bits_inj'; intros i Hi. unfold word_of.
  rewrite !Z.lor_spec, !Z.shiftl_spec by lia.
  change 255 with (Z.ones 8). rewrite !Z.land_ones by lia.
  rewrite !Z.testbit_mod_pow2 by lia.
  assert (Hhigh : 32 <= i -> Z.testbit v i = false)
    by (intros; apply (testbit_high 32); assumption).
  destruct (Z.lt_ge_cases i 8); [| destruct (Z.lt_ge_cases i 16);
    [| destruct (Z.lt_ge_cases i 24); [| destruct (Z.lt_ge_cases i 32)]]];
    repeat match goal with
      | |- context [?a <? ?b] =>
          first [ rewrite (proj2 (Z.ltb_lt a b)) by lia
                | rewrite (proj2 (Z.ltb_ge a b)) by lia ]
      end;
    cbn [andb orb]; rewrite ?orb_false_r;
    rewrite ?Z.shiftr_spec by lia;
    rewrite ?(Z.testbit_neg_r _ (i - 8)), ?(Z.testbit_neg_r _ (i - 16)),
      ?(Z.testbit_neg_r _ (i - 24)) by lia;
    rewrite ?orb_false_r;
    try (symmetry; apply Hhigh; assumption);
    f_equal; lia.
Qed.

Lemma land_255_byte (x : Z) : is_byte (Z.land x 255).
Proof.
  unfold is_byte. change 255 with (Z.ones 8). rewrite Z.land_ones by lia.
  apply Z.mod_pos_bound. lia.
Qed.

(** Unpacking the bytes packed from a 32-bit value gives the value. *)
Lemma u32_from_bytes_from_u32 (v : Z) :
  0 <= v < 2 ^ 32 ->
  exists b : list Z, bytes_from_u32 v = Some b /\ u32_from_bytes b = Some v.
Proof.
  intros Hv. eexists. split; [apply bytes_from_u32_in_range; exact Hv |].
  rewrite u32_from_bytes_four by apply land_255_byte.
  rewrite word_of_bytes by exact Hv. reflexivity.
Qed.

(** Lines 71-85 for any 32-bit size and any offset: the size decrypted
    from the encrypted field is the size that was encrypted, and the
    word-wise method decrypts the encrypted bytes to the bytes of the
    size. *)
Lemma size_round_trip_any (known_size size_offset : Z) :
  0 <= known_size < 2 ^ 32 ->
  exists enc plain : list Z,
    bytes_from_u32 known_size = Some plain
    /\ size_round_trip known_size size_offset = Some (enc, known_size)
    /\ u32_xor_decrypt plain size_offset = Some enc
    /\ u32_xor_decrypt enc size_offset = Some plain.
Proof.
  intros Hv.
  destruct (u32_from_bytes_from_u32 known_size Hv) as (plain & Hplain & Hback).
  destruct (key_u32_at_word size_offset)
    as (k0 & k1 & k2 & k3 & Hkey & (K0 & K1 & K2 & K3) & Hword).
  pose proof (word_of_range k0 k1 k2 k3 K0 K1 K2 K3) as Rk.
  set (kw := word_of k0 k1 k2 k3) in *.
  assert (Re : 0 <= Z.lxor known_size kw < 2 ^ 32) by (apply lxor_range; lia).
  destruct (u32_from_bytes_from_u32 _ Re) as (enc & Henc & Hencback).
  pose proof (lxor_twice known_size kw) as Hinv.
  exists enc, plain. split; [exact Hplain |].
  unfold size_round_trip, u32_xor_decrypt.
  rewrite Hplain, Hword. cbn [mbind option_bind].
  rewrite Hback. cbn [mbind option_bind].
  rewrite Henc. cbn [mbind option_bind].
  rewrite Hencback. cbn [mbind option_bind].
  rewrite Hinv. auto.
Qed.

Lemma size_1000_round_trip (size_offset : Z) :
  exists enc : list Z,
    size_round_trip 1000 size_offset = Some (enc, 1000)
    /\ u32_xor_decrypt [0xe8; 0x03; 0x00; 0x00] size_offset = Some enc
    /\ u32_xor_decrypt enc size_offset = Some [0xe8; 0x03; 0x00; 0x00].
Proof.
  destruct (size_round_trip_any 1000 size_offset ltac:(lia))
    as (enc & plain & Hplain & Hrt & Henc & Hdec).
  assert (plain = [0xe8; 0x03; 0x00; 0x00]) as -> by (cbv in Hplain; congruence).
  exists enc. auto.
Qed.

Lemma test_size_decryption_passes : test_size_decryption = Some true.
Proof.
  unfold test_size_decryption, test_cases. cbn [for_each].
  destruct (size_1000_round_trip 4) as (e1 & -> & _).
  cbn [mbind option_bind snd bool_decide].
  destruct (size_1000_round_trip 104) as (e2 & -> & _). cbn [mbind option_bind].
  destruct (size_1000_round_trip 204) as (e3 & -> & _). reflexivity.
Qed.

Lemma test_byte_by_byte_vs_u32_passes : test_byte_by_byte_vs_u32 = Some true.
Proof.
  unfold test_byte_by_byte_vs_u32.
  rewrite byte_by_byte_aligned by reflexivity.
  rewrite u32_xor_decrypt_four by (unfold is_byte; lia).
  reflexivity.
Qed.

(** C6: the size 1000, little-endian [e8 03 00 00], encrypted at offset 4
    with the key of the chunk's parity and decrypted at the same offset,
    is 1000 again; and so at the offsets 104 and 204, the other two size
    offsets of the test. *)
Theorem size_field_round_trip :
  bytes_from_u32 1000 = Some [0xe8; 0x03; 0x00; 0x00]
  /\ map snd test_cases = [4; 104; 204]
  /\ Forall (fun size_offset =>
               exists enc : list Z,
                 size_round_trip 1000 size_offset = Some (enc, 1000)
                 /\ u32_xor_decrypt [0xe8; 0x03; 0x00; 0x00] size_offset = Some enc
                 /\ u32_xor_decrypt enc size_offset = Some [0xe8; 0x03; 0x00; 0x00])
            [4; 104; 204]
  /\ test_size_decryption = Some true.
Proof.
  split; [reflexivity |]. split; [reflexivity |].
  split; [repeat constructor; apply size_1000_round_trip |].
  exact test_size_decryption_passes.
Qed.

(** C7, as the code has it: the test hard-codes exactly three size-field
    offsets, 4, 104 and 204, and each of them is a multiple of 4. *)
Theorem size_offsets_are_aligned :
  length test_cases = 3%nat
  /\ map snd test_cases = [4; 104; 204]
  /\ Forall (fun c : Z * Z => c.2 mod 4 = 0) test_cases.
Proof.
  split; [reflexivity |]. split; [reflexivity |].
  unfold test_cases. repeat constructor.
Qed.

(** C7 as the specification states it fails: the size-field offset 4 of
    the first test case is a multiple of 4, so the three offsets are not
    all non-4-aligned (none of them is). *)
Lemma size_offsets_not_unaligned :
  (0, 4) ∈ test_cases /\ 4 mod 4 = 0
  /\ ~ Forall (fun c : Z * Z => c.2 mod 4 <> 0) test_cases
  /\ ~ Exists (fun c : Z * Z => c.2 mod 4 <> 0) test_cases.
Proof.
  split; [unfold test_cases; apply list_elem_of_here |]. split; [reflexivity |].
  split.
  - intros Hall. apply Forall_cons in Hall as [H4 _]. apply H4. reflexivity.
  - intros Hex. unfold test_cases in Hex.
    repeat (apply Exists_cons in Hex as [Hne | Hex]; [apply Hne; reflexivity |]).
    apply Exists_nil in Hex. exact Hex.
Qed.

End Tests.

(** ** Walking the records of a stream *)

Section Scanner.
Import XorScript.

Lemma le_unsigned_bytes (v : Z) :
  0 <= v < 2 ^ 32 ->
  Codec.le_unsigned [Z.land v 255; Z.land (Z.shiftr v 8) 255;
                     Z.land (Z.shiftr v 16) 255; Z.land (Z.shiftr v 24) 255] = v.
Proof.
  intros Hv. unfold Codec.le_unsigned. cbn [foldr].
  change 255 with (Z.ones 8). rewrite !Z.land_ones by lia.
  rewrite !Z.shiftr_div_pow2 by lia.
  change (2 ^ 32) with 4294967296 in Hv.
  change (2 ^ 8) with 256. change (2 ^ 16) with 65536. change (2 ^ 24) with 16777216.
  Z.div_mod_to_equations. lia.
Qed.

(** A header encrypted in place is found by the scanner, whatever comes
    before it and after it in the stream: the keys are those of the
    header's absolute offset. *)
Lemma scan_header_encrypted (before after : list Z) (len : Z) :
  0 <= len < 2 ^ 32 ->
  let offset := Z.of_nat (length before) in
  let header := EXPECTED_MAGIC
                ++ [Z.land len 255; Z.land (Z.shiftr len 8) 255;
                    Z.land (Z.shiftr len 16) 255; Z.land (Z.shiftr len 24) 255] in
  Codec.scan_header (before ++ Codec.decrypt header offset ++ after) offset
  = inr {| Codec.magic_valid := true; Codec.declared_length := len |}.
Proof.
  intros Hlen offset header. unfold Codec.scan_header. subst offset.
  rewrite Nat2Z.id, drop_app_length.
  rewrite take_app_length' by (rewrite decrypt_length; reflexivity).
  rewrite decrypt_length, decrypt_decrypt.
  change (length header) with 8%nat. cbn [Nat.ltb Nat.leb].
  subst header. cbn [take app drop EXPECTED_MAGIC].
  rewrite bool_decide_eq_true_2 by reflexivity.
  rewrite le_unsigned_bytes by exact Hlen. reflexivity.
Qed.

(** Fewer than eight bytes left at the offset: the input is truncated. *)
Lemma scan_header_truncated (stream : list Z) (offset : Z) :
  (length stream < Z.to_nat offset + 8)%nat ->
  Codec.scan_header stream offset = inl Codec.TruncatedInput.
Proof.
  intros Hshort. unfold Codec.scan_header.
  destruct (Nat.ltb_spec (length (take 8 (drop (Z.to_nat offset) stream))) 8)
    as [Hlt | Hge]; [reflexivity |].
  rewrite length_take, length_drop in Hge. lia.
Qed.

(** C8: after a header scanned at offset 100 that declares a payload of
    50 bytes, the next header is probed at offset 100 + 8 + 50 = 158; this
    offset lies in chunk 158 / 4 = 39, which is odd, so the key selected
    there is KEY2. *)
Theorem next_probe_after_header (stream : list Z) (h : Codec.Header) :
  Codec.scan_header stream 100 = inr h ->
  Codec.declared_length h = 50 ->
  let probe := Codec.next_offset 100 (Codec.declared_length h) in
  probe = 158 /\ probe / 4 = 39 /\ Z.odd (probe / 4) = true
  /\ use_key1 probe = false /\ key_at probe = XOR_KEY2
  /\ key_name probe = "KEY2"%string.
Proof.
  intros _ Hlen probe. subst probe. rewrite Hlen.
  unfold Codec.next_offset.
  change (100 + 8 + 50) with 158.
  assert (Hchunk : 158 / 4 = 39) by reflexivity.
  unfold key_name, key_at, use_key1. rewrite Hchunk.
  repeat split; reflexivity.
Qed.

Lemma next_probe_after_header_witness :
  exists (stream : list Z) (h : Codec.Header),
    length stream = 108%nat
    /\ Codec.scan_header stream 100 = inr h
    /\ Codec.declared_length h = 50
    /\ Codec.next_offset 100 (Codec.declared_length h) = 158
    /\ key_at (Codec.next_offset 100 (Codec.declared_length h)) = XOR_KEY2.
Proof.
  exists (replicate 100 0 ++ Codec.decrypt (EXPECTED_MAGIC ++ [50; 0; 0; 0]) 100),
    {| Codec.magic_valid := true; Codec.declared_length := 50 |}.
  split; [reflexivity |].
  assert (Hscan : Codec.scan_header
            (replicate 100 0 ++ Codec.decrypt (EXPECTED_MAGIC ++ [50; 0; 0; 0]) 100) 100
          = inr {| Codec.magic_valid := true; Codec.declared_length := 50 |})
    by (vm_compute; reflexivity).
  split; [exact Hscan |]. split; [reflexivity |].
  pose proof (next_probe_after_header _ _ Hscan eq_refl) as (Hp & _ & _ & _ & Hk & _).
  split; [exact Hp | exact Hk].
Defined.

End Scanner.

(** ** The top-level run *)

Section Main.
Import XorScript.

Lemma summary_all_pass_four (n1 n2 n3 n4 : string) (r1 r2 r3 r4 : bool) :
  summary_all_pass [(n1, r1); (n2, r2); (n3, r3); (n4, r4)] = r1 && r2 && r3 && r4.
Proof. destruct r1, r2, r3, r4; reflexivity. Qed.

Lemma run_tests_0_iff (t1 t2 t3 t4 : option bool) :
  run_tests t1 t2 t3 t4 = 0
  <-> t1 = Some true /\ t2 = Some true /\ t3 = Some true /\ t4 = Some true.
Proof.
  unfold run_tests.
  destruct t1 as [r1 |], t2 as [r2 |], t3 as [r3 |], t4 as [r4 |];
    cbn [mbind option_bind]; try rewrite summary_all_pass_four;
    try (split; [discriminate | intros (? & ? & ? & ?); discriminate]).
  destruct r1, r2, r3, r4; cbn [andb];
    (split; [intros E; try discriminate E; auto
            | intros (? & ? & ? & ?); try discriminate; reflexivity]).
Qed.

Lemma run_tests_0_or_1 (t1 t2 t3 t4 : option bool) :
  run_tests t1 t2 t3 t4 = 0 \/ run_tests t1 t2 t3 t4 = 1.
Proof.
  unfold run_tests.
  destruct t1 as [r1 |], t2 as [r2 |], t3 as [r3 |], t4 as [r4 |];
    cbn [mbind option_bind]; auto.
  destruct (summary_all_pass _); auto.
Qed.

(** C9: the run exits with status 0 exactly when each of the four test
    functions returns [True], and with status 1 otherwise. *)
Theorem exit_status_iff_all_pass (t1 t2 t3 t4 : option bool) :
  (run_tests t1 t2 t3 t4 = 0
   <-> t1 = Some true /\ t2 = Some true /\ t3 = Some true /\ t4 = Some true)
  /\ (run_tests t1 t2 t3 t4 = 0 \/ run_tests t1 t2 t3 t4 = 1)
  /\ main = run_tests test_magic_decryption test_size_decryption
                      test_key_rotation test_byte_by_byte_vs_u32.
Proof.
  split; [apply run_tests_0_iff |]. split; [apply run_tests_0_or_1 |].
  reflexivity.
Qed.

(** X12: the script as it stands exits with status 0. *)
Lemma main_exits_0 : main = 0.
Proof.
  unfold main. apply run_tests_0_iff.
  split; [exact test_magic_decryption_passes |].
  split; [exact test_size_decryption_passes |].
  split; [exact test_key_rotation_passes |].
  exact test_byte_by_byte_vs_u32_passes.
Qed.

End Main.

(** ** The benchmark-filter patcher *)

Section Substitution.
Import FilterPatch.

Local Open Scope string_scope.

Lemma upto_quote_no_quote (s : string) : has_quote s = false -> upto_quote s = None.
Proof.
  induction s as [| c s IH]; [reflexivity |].
  cbn [has_quote upto_quote]. intros Hq. apply orb_false_iff in Hq as [Hc Hs].
  rewrite Hc, (IH Hs). reflexivity.
Qed.

Lemma strip_prefix_no_quote (p s rest : string) :
  strip_prefix p s = Some rest -> has_quote s = false -> has_quote rest = false.
Proof.
  revert s. induction p as [| a p IH]; intros s Hp Hq.
  - cbn in Hp. congruence.
  - destruct s as [| b s]; [discriminate Hp |].
    cbn [strip_prefix] in Hp. destruct (Ascii.eqb a b); [| discriminate Hp].
    cbn [has_quote] in Hq. apply orb_false_iff in Hq as [_ Hs].
    apply (IH s); assumption.
Qed.

Lemma match_filter_at_no_quote (s : string) :
  has_quote s = false -> match_filter_at s = None.
Proof.
  intros Hq. unfold match_filter_at.
  destruct (strip_prefix filter_head s) as [rest |] eqn:Hp; [| reflexivity].
  rewrite (upto_quote_no_quote rest); [reflexivity |].
  apply (strip_prefix_no_quote filter_head s); assumption.
Qed.

(** A text without a double quote holds no match: the substitution
    returns it as it is. *)
Lemma sub_matches_no_quote (emit : string -> string) (s : string) :
  has_quote s = false -> sub_matches emit 0 s = s.
Proof.
  induction s as [| c s IH]; [reflexivity |]. intros Hq.
  cbn [sub_matches]. rewrite (match_filter_at_no_quote _ Hq).
  cbn [has_quote] in Hq. apply orb_false_iff in Hq as [_ Hs].
  rewrite (IH Hs). reflexivity.
Qed.

End Substitution.

Section UpdateFacts.
Import FilterPatch.

Context {W : Type} `{FileSystem W}.
Variable expand_template : string -> option (string -> string).

#[local] Abbreviation update := (update_filter_in_file expand_template).
#[local] Abbreviation re_sub := (re_sub_filter expand_template).

(** What the function does, by the path taken through its body. *)
Lemma update_read_fails (w : W) (filepath new_filter : string) :
  read_text w filepath = None -> update w filepath new_filter = (w, false).
Proof. intros Hr. unfold update_filter_in_file. rewrite Hr. reflexivity. Qed.

Lemma update_sub_fails (w : W) (filepath new_filter content : string) :
  read_text w filepath = Some content ->
  re_sub (filter_replacement new_filter) content = None ->
  update w filepath new_filter = (w, false).
Proof.
  intros Hr Hs. unfold update_filter_in_file. rewrite Hr, Hs. reflexivity.
Qed.

Lemma update_unchanged (w : W) (filepath new_filter content : string) :
  read_text w filepath = Some content ->
  re_sub (filter_replacement new_filter) content = Some content ->
  update w filepath new_filter = (w, false).
Proof.
  intros Hr Hs. unfold update_filter_in_file. rewrite Hr, Hs.
  rewrite bool_decide_eq_false_2; [reflexivity | intros Hne; apply Hne; reflexivity].
Qed.

Lemma update_changed (w : W) (filepath new_filter content new_content : string) :
  read_text w filepath = Some content ->
  re_sub (filter_replacement new_filter) content = Some new_content ->
  new_content <> content ->
  update w filepath new_filter = write_text w filepath new_content.
Proof.
  intros Hr Hs Hne. unfold update_filter_in_file. rewrite Hr, Hs.
  rewrite bool_decide_eq_true_2 by exact Hne.
  destruct (write_text w filepath new_content) as [w' [|]]; reflexivity.
Qed.

(** A file without a double quote is never rewritten. *)
Lemma update_no_quote (w : W) (filepath new_filter content : string) :
  read_text w filepath = Some content ->
  has_quote content = false ->
  update w filepath new_filter = (w, false).
Proof.
  intros Hr Hq.
  destruct (expand_template (filter_replacement new_filter)) as [emit |] eqn:He.
  - apply (update_unchanged _ _ _ content); [exact Hr |].
    unfold re_sub_filter. rewrite He. cbn [mbind option_bind].
    rewrite sub_matches_no_quote by exact Hq. reflexivity.
  - apply (update_sub_fails _ _ _ content); [exact Hr |].
    unfold re_sub_filter. rewrite He. reflexivity.
Qed.

(** The four paths are all there are. *)
Lemma update_paths (w : W) (filepath new_filter : string) :
  (read_text w filepath = None
   \/ (exists content, read_text w filepath = Some content
        /\ re_sub (filter_replacement new_filter) content = None)
   \/ (exists content, read_text w filepath = Some content
        /\ re_sub (filter_replacement new_filter) content = Some content))
  \/ (exists content new_content,
        read_text w filepath = Some content
        /\ re_sub (filter_replacement new_filter) content = Some new_content
        /\ new_content <> content).
Proof.
  destruct (read_text w filepath) as [content |]; [| auto].
  destruct (re_sub (filter_replacement new_filter) content) as [new_content |] eqn:Hs.
  - destruct (decide (new_content = content)) as [-> | Hne].
    + left. right. right. exists content. auto.
    + right. exists content, new_content. auto.
  - left. right. left. exists content. auto.
Qed.

(** C10: the function writes the file only when the substitution changes
    the content, and returns [True] exactly when that write completed;
    when the content is unchanged the file system is left as it is and
    [False] is returned; when reading, substituting or writing raises,
    [False] is returned. *)
Theorem update_filter_in_file_effect (w : W) (filepath new_filter : string) :
  let result := update w filepath new_filter in
  (result.2 = true
   <-> exists content new_content,
         read_text w filepath = Some content
         /\ re_sub (filter_replacement new_filter) content = Some new_content
         /\ new_content <> content
         /\ write_text w filepath new_content = (result.1, true))
  /\ (result.1 = w
      \/ exists content new_content,
           read_text w filepath = Some content
           /\ re_sub (filter_replacement new_filter) content = Some new_content
           /\ new_content <> content
           /\ result.1 = (write_text w filepath new_content).1)
  /\ (forall content,
        read_text w filepath = Some content ->
        re_sub (filter_replacement new_filter) content = Some content ->
        result = (w, false))
  /\ (read_text w filepath = None -> result = (w, false))
  /\ (forall content,
        read_text w filepath = Some content ->
        re_sub (filter_replacement new_filter) content = None ->
        result = (w, false))
  /\ (forall content new_content,
        read_text w filepath = Some content ->
        re_sub (filter_replacement new_filter) content = Some new_content ->
        (write_text w filepath new_content).2 = false ->
        result.2 = false).
Proof.
  intros result. subst result.
  split; [| split; [| split; [| split; [| split]]]].
  - split.
    + intros Htrue.
      destruct (update_paths w filepath new_filter)
        as [[Hr | [(c & Hr & Hs) | (c & Hr & Hs)]] | (c & nc & Hr & Hs & Hne)].
      * rewrite update_read_fails in Htrue by exact Hr. discriminate Htrue.
      * rewrite (update_sub_fails _ _ _ c) in Htrue by assumption. discriminate Htrue.
      * rewrite (update_unchanged _ _ _ c) in Htrue by assumption. discriminate Htrue.
      * exists c, nc. repeat (split; [assumption |]).
        rewrite (update_changed _ _ _ c nc) in * by assumption.
        destruct (write_text w filepath nc) as [w' completed].
        cbn in Htrue |- *. rewrite Htrue. reflexivity.
    + intros (c & nc & Hr & Hs & Hne & Hw).
      rewrite (update_changed _ _ _ c nc) in * by assumption.
      rewrite Hw. reflexivity.
  - destruct (update_paths w filepath new_filter)
      as [[Hr | [(c & Hr & Hs) | (c & Hr & Hs)]] | (c & nc & Hr & Hs & Hne)].
    + left. rewrite update_read_fails by exact Hr. reflexivity.
    + left. rewrite (update_sub_fails _ _ _ c) by assumption. reflexivity.
    + left. rewrite (update_unchanged _ _ _ c) by assumption. reflexivity.
    + right. exists c, nc. repeat (split; [assumption |]).
      rewrite (update_changed _ _ _ c nc) by assumption. reflexivity.
  - intros c Hr Hs. apply (update_unchanged _ _ _ c); assumption.
  - apply update_read_fails.
  - intros c Hr Hs. apply (update_sub_fails _ _ _ c); assumption.
  - intros c nc Hr Hs Hw.
    destruct (decide (nc = c)) as [-> | Hne].
    + rewrite (update_unchanged _ _ _ c) by assumption. reflexivity.
    + rewrite (update_changed _ _ _ c nc) by assumption. exact Hw.
Qed.

End UpdateFacts.

Section UpdateExamples.
Import FilterPatch.

Local Open Scope string_scope.

(** The substitution on the sample script. *)
Lemma re_sub_sample (new_filter : string) :
  re_sub_filter literal_template (filter_replacement new_filter) (script_with "Old")
  = Some (script_with new_filter).
Proof.
  unfold re_sub_filter, literal_template. cbn [mbind option_bind]. f_equal.
Qed.

(** A new filter is written into the writable script, and [True] is
    returned; nothing else in the file system changes. *)
Lemma update_sample_written :
  update_filter_in_file literal_template sample_fs "core/a-bench.sh" "A|B"
  = ({| files := <["core/a-bench.sh" := script_with "A|B"]> (files sample_fs);
        read_only := read_only sample_fs |}, true).
Proof.
  rewrite (update_changed literal_template sample_fs _ _
             (script_with "Old") (script_with "A|B")).
  - reflexivity.
  - reflexivity.
  - apply re_sub_sample.
  - intros E. cbv in E. discriminate E.
Qed.

(** The filter the script already has: no write, [False]. *)
Lemma update_sample_same_filter :
  update_filter_in_file literal_template sample_fs "core/a-bench.sh" "Old"
  = (sample_fs, false).
Proof.
  apply (update_unchanged literal_template sample_fs _ _ (script_with "Old")).
  - reflexivity.
  - apply re_sub_sample.
Qed.

(** A script that does not exist: reading raises, [False]. *)
Lemma update_sample_missing :
  update_filter_in_file literal_template sample_fs "core/c-bench.sh" "A|B"
  = (sample_fs, false).
Proof. apply update_read_fails. reflexivity. Qed.

(** A script that cannot be written: opening it raises, [False], and the
    script keeps its content. *)
Lemma update_sample_read_only :
  update_filter_in_file literal_template sample_fs "core/b-bench.sh" "A|B"
  = (sample_fs, false).
Proof.
  rewrite (update_changed literal_template sample_fs _ _
             (script_with "Old") (script_with "A|B")).
  - reflexivity.
  - reflexivity.
  - apply re_sub_sample.
  - intros E. cbv in E. discriminate E.
Qed.

End UpdateExamples.

Section Witnesses.
Import XorScript FilterPatch.

Lemma exit_status_iff_all_pass_witness :
  run_tests (Some true) (Some true) (Some true) (Some true) = 0
  /\ (run_tests (Some true) None (Some true) (Some true) = 0
      \/ run_tests (Some true) None (Some true) (Some true) = 1).
Proof.
  split.
  - apply (proj1 (exit_status_iff_all_pass _ _ _ _)). repeat split.
  - apply (proj1 (proj2 (exit_status_iff_all_pass (Some true) None (Some true) (Some true)))).
Defined.

Lemma update_filter_in_file_effect_witness :
  update_filter_in_file literal_template sample_fs "core/a-bench.sh" "Old"
  = (sample_fs, false)
  /\ update_filter_in_file literal_template sample_fs "core/c-bench.sh" "Old"
     = (sample_fs, false).
Proof.
  split.
  - apply (proj1 (proj2 (proj2
      (update_filter_in_file_effect literal_template sample_fs "core/a-bench.sh" "Old")))
      (script_with "Old")).
    + reflexivity.
    + reflexivity.
  - apply (proj1 (proj2 (proj2 (proj2
      (update_filter_in_file_effect literal_template sample_fs "core/c-bench.sh" "Old"))))).
    reflexivity.
Defined.

End Witnesses.

(** * Further properties of the validation script *)

Section StructConversions.
Import XorScript.

(** X1: [u32_from_bytes] accepts exactly the lists of four bytes; what it
    returns is a 32-bit value, and [bytes_from_u32] gives the list back. *)
Theorem unpack_then_pack (b : list Z) :
  length b = 4%nat ->
  Forall is_byte b ->
  exists v : Z,
    u32_from_bytes b = Some v /\ 0 <= v < 2 ^ 32 /\ bytes_from_u32 v = Some b.
Proof.
  intros Hlen Hb. four_elements b Hlen.
  apply Forall_cons in Hb as [H0 Hb]. apply Forall_cons in Hb as [H1 Hb].
  apply Forall_cons in Hb as [H2 Hb]. apply Forall_cons in Hb as [H3 _].
  exists (word_of d0 d1 d2 d3).
  split; [apply u32_from_bytes_four; assumption |].
  split; [apply word_of_range; assumption |].
  apply bytes_from_u32_word_of; assumption.
Qed.

Lemma unpack_then_pack_witness :
  exists v : Z,
    u32_from_bytes [0xe8; 0x03; 0x00; 0x00] = Some v /\ 0 <= v < 2 ^ 32
    /\ bytes_from_u32 v = Some [0xe8; 0x03; 0x00; 0x00].
Proof.
  apply (unpack_then_pack [0xe8; 0x03; 0x00; 0x00]).
  - reflexivity.
  - repeat constructor; unfold is_byte; lia.
Defined.

(** X2: [bytes_from_u32] turns every 32-bit value into four bytes, and
    [u32_from_bytes] gives the value back. *)
Theorem pack_then_unpack (v : Z) :
  0 <= v < 2 ^ 32 ->
  exists b : list Z,
    bytes_from_u32 v = Some b /\ length b = 4%nat /\ Forall is_byte b
    /\ u32_from_bytes b = Some v.
Proof.
  intros Hv. eexists. split; [apply bytes_from_u32_in_range; exact Hv |].
  split; [reflexivity |].
  split; [repeat constructor; apply land_255_byte |].
  rewrite u32_from_bytes_four by apply land_255_byte.
  rewrite word_of_bytes by exact Hv. reflexivity.
Qed.

Lemma pack_then_unpack_witness :
  exists b : list Z,
    bytes_from_u32 1000 = Some b /\ length b = 4%nat /\ Forall is_byte b
    /\ u32_from_bytes b = Some 1000.
Proof. apply (pack_then_unpack 1000). lia. Defined.

End StructConversions.

Section MethodsAnyOffset.
Import XorScript.

Lemma lxor_cancel_l (a x y : Z) : Z.lxor a x = Z.lxor a y -> x = y.
Proof.
  intros E.
  rewrite <- (Z.lxor_0_l x), <- (Z.lxor_0_l y), <- (Z.lxor_nilpotent a).
  rewrite !Z.lxor_assoc, E. reflexivity.
Qed.

Lemma mod_4_cases (o : Z) : o mod 4 = 0 \/ o mod 4 = 1 \/ o mod 4 = 2 \/ o mod 4 = 3.
Proof. pose proof (Z.mod_pos_bound o 4 ltac:(lia)). lia. Qed.

(** The byte of the selected key at a stream position is byte 0 of that
    key only at the start of a chunk: the four bytes of each key differ. *)
Lemma key_byte_is_first (pos o : Z) :
  key_byte (key_at pos) o = key_byte (key_at pos) 0 -> o mod 4 = 0.
Proof.
  unfold key_byte.
  destruct (key_at_cases pos) as [-> | ->];
    destruct (mod_4_cases o) as [-> | [-> | [-> | ->]]]; cbn;
    intros E; try reflexivity; discriminate E.
Qed.

(** X4: at any offset, aligned or not, the word-wise method XORs byte [i] of
    the data with byte [i] of the key of the chunk of [file_offset]; its
    result is four bytes again. *)
Theorem word_wise_is_xor_with_key (data : list Z) (file_offset : Z) :
  length data = 4%nat ->
  Forall is_byte data ->
  exists out : list Z,
    u32_xor_decrypt data file_offset = Some out
    /\ out = zip_with Z.lxor data (key_at file_offset)
    /\ length out = 4%nat
    /\ Forall is_byte out.
Proof.
  intros Hlen Hb. four_elements data Hlen.
  apply Forall_cons in Hb as [H0 Hb]. apply Forall_cons in Hb as [H1 Hb].
  apply Forall_cons in Hb as [H2 Hb]. apply Forall_cons in Hb as [H3 _].
  eexists. split; [apply u32_xor_decrypt_four; assumption |].
  split; [reflexivity |].
  destruct (key_u32_at_word file_offset)
    as (k0 & k1 & k2 & k3 & -> & (K0 & K1 & K2 & K3) & _).
  split; [reflexivity |].
  cbn [zip_with]. repeat constructor; apply lxor_byte; assumption.
Qed.

Lemma word_wise_is_xor_with_key_witness :
  exists out : list Z,
    u32_xor_decrypt [0x12; 0x34; 0x56; 0x78] 6 = Some out
    /\ out = zip_with Z.lxor [0x12; 0x34; 0x56; 0x78] (key_at 6)
    /\ length out = 4%nat
    /\ Forall is_byte out.
Proof.
  apply (word_wise_is_xor_with_key [0x12; 0x34; 0x56; 0x78] 6).
  - reflexivity.
  - repeat constructor; unfold is_byte; lia.
Defined.

(** X5: the two methods of the script return the same bytes exactly when the
    offset is a multiple of 4: at any other offset the byte-wise loop
    reads the key rotated, and the four bytes of a key are all different. *)
Theorem methods_agree_iff_aligned (data : list Z) (file_offset : Z) :
  length data = 4%nat ->
  Forall is_byte data ->
  (byte_by_byte_decrypt data file_offset = u32_xor_decrypt data file_offset
   <-> file_offset mod 4 = 0).
Proof.
  intros Hlen Hb. four_elements data Hlen.
  apply Forall_cons in Hb as [H0 Hb]. apply Forall_cons in Hb as [H1 Hb].
  apply Forall_cons in Hb as [H2 Hb]. apply Forall_cons in Hb as [H3 _].
  split.
  - rewrite byte_by_byte_decrypt_four, u32_xor_decrypt_four by assumption.
    intros E. apply (key_byte_is_first file_offset).
    destruct (key_u32_at_word file_offset) as (k0 & k1 & k2 & k3 & Hkey & _ & _).
    rewrite Hkey in E |- *. cbn [zip_with] in E.
    injection E as E0 _ _ _. apply lxor_cancel_l in E0. rewrite E0. reflexivity.
  - intros Hal. rewrite byte_by_byte_aligned by exact Hal.
    rewrite u32_xor_decrypt_four by assumption. reflexivity.
Qed.

Lemma methods_agree_iff_aligned_witness :
  (byte_by_byte_decrypt [0; 0; 0; 0] 2 = u32_xor_decrypt [0; 0; 0; 0] 2
   <-> 2 mod 4 = 0)
  /\ byte_by_byte_decrypt [0; 0; 0; 0] 8 = u32_xor_decrypt [0; 0; 0; 0] 8.
Proof.
  split.
  - apply (methods_agree_iff_aligned [0; 0; 0; 0] 2).
    + reflexivity.
    + repeat constructor; unfold is_byte; lia.
  - apply (methods_agree_iff_aligned [0; 0; 0; 0] 8).
    + reflexivity.
    + repeat constructor; unfold is_byte; lia.
    + reflexivity.
Defined.

(** X6: each method of the script undoes itself: run again at the same
    offset on its own output, it returns the input. *)
Theorem script_methods_self_inverse (data : list Z) (file_offset : Z) :
  length data = 4%nat ->
  Forall is_byte data ->
  (exists enc : list Z,
     u32_xor_decrypt data file_offset = Some enc
     /\ u32_xor_decrypt enc file_offset = Some data)
  /\ (exists enc : list Z,
        byte_by_byte_decrypt data file_offset = Some enc
        /\ byte_by_byte_decrypt enc file_offset = Some data).
Proof.
  intros Hlen Hb. four_elements data Hlen.
  apply Forall_cons in Hb as [H0 Hb]. apply Forall_cons in Hb as [H1 Hb].
  apply Forall_cons in Hb as [H2 Hb]. apply Forall_cons in Hb as [H3 _].
  split; [apply u32_xor_decrypt_twice; assumption | apply byte_by_byte_decrypt_twice].
Qed.

Lemma script_methods_self_inverse_witness :
  (exists enc : list Z,
     u32_xor_decrypt [0x12; 0x34; 0x56; 0x78] 5 = Some enc
     /\ u32_xor_decrypt enc 5 = Some [0x12; 0x34; 0x56; 0x78])
  /\ (exists enc : list Z,
        byte_by_byte_decrypt [0x12; 0x34; 0x56; 0x78] 5 = Some enc
        /\ byte_by_byte_decrypt enc 5 = Some [0x12; 0x34; 0x56; 0x78]).
Proof.
  apply (script_methods_self_inverse [0x12; 0x34; 0x56; 0x78] 5).
  - reflexivity.
  - repeat constructor; unfold is_byte; lia.
Defined.

(** X7: the byte-wise loop touches the first four elements only: a shorter
    list raises [IndexError], and the elements behind the fourth are
    returned as they were. *)
Theorem byte_by_byte_bounds (test_data : list Z) (file_offset : Z) :
  (byte_by_byte_decrypt test_data file_offset = None
   <-> (length test_data < 4)%nat)
  /\ (forall out : list Z,
        byte_by_byte_decrypt test_data file_offset = Some out ->
        length out = length test_data
        /\ drop 4 out = drop 4 test_data
        /\ byte_by_byte_decrypt (take 4 test_data) file_offset = Some (take 4 out)).
Proof.
  destruct test_data as [| d0 [| d1 [| d2 [| d3 rest]]]];
    try (match goal with
         | |- (byte_by_byte_decrypt ?l _ = None <-> _) /\ _ =>
             assert (E : byte_by_byte_decrypt l file_offset = None)
               by (unfold byte_by_byte_decrypt; cbn [seq for_each];
                   unfold xor_in_place;
                   rewrite ?key_byte_lookup by apply key_at_length; reflexivity)
         end;
         split; [split; [intros _; cbn; lia | intros _; exact E]
                | intros out Hout; rewrite E in Hout; discriminate Hout]).
  assert (E : byte_by_byte_decrypt (d0 :: d1 :: d2 :: d3 :: rest) file_offset
              = Some (Z.lxor d0 (key_byte (key_at file_offset) file_offset)
                      :: Z.lxor d1 (key_byte (key_at file_offset) (file_offset + 1))
                      :: Z.lxor d2 (key_byte (key_at file_offset) (file_offset + 2))
                      :: Z.lxor d3 (key_byte (key_at file_offset) (file_offset + 3))
                      :: rest)).
  { unfold byte_by_byte_decrypt. cbn [seq for_each]. unfold xor_in_place.
    rewrite !key_byte_lookup by apply key_at_length.
    cbn. rewrite Z.add_0_r. reflexivity. }
  split.
  - rewrite E. split; [discriminate | cbn; lia].
  - intros out Hout. rewrite E in Hout. injection Hout as <-.
    split; [reflexivity |]. split; [reflexivity |].
    cbn [take]. apply byte_by_byte_decrypt_four.
Qed.

Lemma byte_by_byte_bounds_witness :
  length [0xf9; 0xbe; 0xb4; 0xd9; 0x01; 0x02] = 6%nat
  /\ drop 4 [0xf9; 0xbe; 0xb4; 0xd9; 0x01; 0x02] = [0x01; 0x02]
  /\ byte_by_byte_decrypt (take 4 [0x7d; 0x9c; 0x5d; 0x74; 0x01; 0x02]) 0
     = Some (take 4 [0xf9; 0xbe; 0xb4; 0xd9; 0x01; 0x02]).
Proof.
  apply (proj2 (byte_by_byte_bounds [0x7d; 0x9c; 0x5d; 0x74; 0x01; 0x02] 0)
           [0xf9; 0xbe; 0xb4; 0xd9; 0x01; 0x02]).
  reflexivity.
Defined.

End MethodsAnyOffset.

Section KeyRotation.
Import XorScript.

Lemma use_key1_next_chunk (pos : Z) : use_key1 (pos + 4) = negb (use_key1 pos).
Proof.
  unfold use_key1.
  replace ((pos + 4) / 4) with (pos / 4 + 1) by (Z.div_mod_to_equations; lia).
  destruct (Z.eqb_spec ((pos / 4) mod 2) 0) as [E | E];
    destruct (Z.eqb_spec ((pos / 4 + 1) mod 2) 0) as [E' | E'];
    try reflexivity; exfalso; Z.div_mod_to_equations; lia.
Qed.

(** X8: the key alternates from every chunk to the next and repeats every
    eight bytes, at every integer offset; within a chunk it is constant. *)
Theorem key_alternates_every_chunk (pos : Z) :
  use_key1 (pos + 4) = negb (use_key1 pos)
  /\ key_at (pos + 4) <> key_at pos
  /\ key_at (pos + 8) = key_at pos
  /\ key_u32_at (pos + 8) = key_u32_at pos
  /\ key_at (4 * (pos / 4)) = key_at pos.
Proof.
  split; [apply use_key1_next_chunk |].
  split.
  - unfold key_at. rewrite use_key1_next_chunk.
    destruct (use_key1 pos); discriminate.
  - assert (E8 : use_key1 (pos + 8) = use_key1 pos).
    { replace (pos + 8) with (pos + 4 + 4) by lia.
      rewrite !use_key1_next_chunk. apply negb_involutive. }
    unfold key_at, key_u32_at. rewrite E8.
    split; [reflexivity |]. split; [reflexivity |].
    unfold use_key1.
    replace (4 * (pos / 4) / 4) with (pos / 4) by (Z.div_mod_to_equations; lia).
    reflexivity.
Qed.

(** X9: decrypting with the key of the wrong chunk parity does not give the
    data back: every byte is left XOR-ed with the fixed difference of
    the two keys, [33 ad 16 b9]. *)
Theorem wrong_parity_leaves_key_difference (data : list Z) (file_offset : Z) :
  length data = 4%nat ->
  Forall is_byte data ->
  exists enc : list Z,
    u32_xor_decrypt data file_offset = Some enc
    /\ u32_xor_decrypt enc (file_offset + 4)
       = Some (zip_with Z.lxor data [0x33; 0xad; 0x16; 0xb9])
    /\ u32_xor_decrypt enc (file_offset + 4) <> Some data.
Proof.
  intros Hlen Hb. four_elements data Hlen.
  apply Forall_cons in Hb as [H0 Hb]. apply Forall_cons in Hb as [H1 Hb].
  apply Forall_cons in Hb as [H2 Hb]. apply Forall_cons in Hb as [H3 _].
  assert (Hdiff : Z.lxor d0 0x33 <> d0).
  { intros E. assert (E' : Z.lxor d0 0x33 = Z.lxor d0 0)
      by (rewrite Z.lxor_0_r; exact E).
    apply lxor_cancel_l in E'. discriminate E'. }
  eexists. split; [apply u32_xor_decrypt_four; assumption |].
  unfold key_at.
  assert (E : u32_xor_decrypt
                (zip_with Z.lxor [d0; d1; d2; d3]
                   (if use_key1 file_offset then XOR_KEY1 else XOR_KEY2))
                (file_offset + 4)
              = Some (zip_with Z.lxor [d0; d1; d2; d3] [0x33; 0xad; 0x16; 0xb9])).
  { destruct (use_key1 file_offset) eqn:Hk; cbn [zip_with XOR_KEY1 XOR_KEY2];
      rewrite u32_xor_decrypt_four
        by (apply lxor_byte; [assumption | unfold is_byte; lia]);
      unfold key_at; rewrite use_key1_next_chunk, Hk;
      cbn [negb zip_with XOR_KEY1 XOR_KEY2];
      rewrite !Z.lxor_assoc; reflexivity. }
  split; [exact E |].
  rewrite E. cbn [zip_with]. intros Heq. injection Heq as E0 _ _ _.
  apply Hdiff. exact E0.
Qed.

Lemma wrong_parity_leaves_key_difference_witness :
  exists enc : list Z,
    u32_xor_decrypt [0xe8; 0x03; 0x00; 0x00] 4 = Some enc
    /\ u32_xor_decrypt enc (4 + 4)
       = Some (zip_with Z.lxor [0xe8; 0x03; 0x00; 0x00] [0x33; 0xad; 0x16; 0xb9])
    /\ u32_xor_decrypt enc (4 + 4) <> Some [0xe8; 0x03; 0x00; 0x00].
Proof.
  apply (wrong_parity_leaves_key_difference [0xe8; 0x03; 0x00; 0x00] 4).
  - reflexivity.
  - repeat constructor; unfold is_byte; lia.
Defined.

(** X10: the round trip of the size test holds for every 32-bit size at every
    offset, and the size field is four bytes; a size that does not fit 32
    bits raises before anything is encrypted. *)
Theorem size_round_trip_every_size (known_size size_offset : Z) :
  (0 <= known_size < 2 ^ 32 ->
   exists enc : list Z,
     size_round_trip known_size size_offset = Some (enc, known_size)
     /\ length enc = 4%nat /\ Forall is_byte enc)
  /\ (~ 0 <= known_size < 2 ^ 32 ->
      size_round_trip known_size size_offset = None).
Proof.
  split.
  - intros Hv.
    destruct (size_round_trip_any known_size size_offset Hv)
      as (enc & plain & Hplain & Hrt & Henc & Hdec).
    exists enc. split; [exact Hrt |].
    unfold u32_xor_decrypt in Henc.
    destruct (key_u32_at size_offset) as [k |]; [| discriminate Henc].
    cbn [mbind option_bind] in Henc.
    destruct (u32_from_bytes plain) as [p |]; [| discriminate Henc].
    cbn [mbind option_bind] in Henc.
    unfold bytes_from_u32 in Henc.
    destruct ((0 <=? Z.lxor p k) && (Z.lxor p k <? 2 ^ 32)); [| discriminate Henc].
    injection Henc as <-.
    split; [reflexivity | repeat constructor; apply land_255_byte].
  - intros Hout. unfold size_round_trip, bytes_from_u32.
    destruct (Z.leb_spec 0 known_size), (Z.ltb_spec known_size (2 ^ 32));
      cbn [andb]; try reflexivity; lia.
Qed.

Lemma size_round_trip_every_size_witness :
  (exists enc : list Z,
     size_round_trip 4294967295 7 = Some (enc, 4294967295)
     /\ length enc = 4%nat /\ Forall is_byte enc)
  /\ size_round_trip 4294967296 7 = None.
Proof.
  split.
  - apply (proj1 (size_round_trip_every_size 4294967295 7)). lia.
  - apply (proj2 (size_round_trip_every_size 4294967296 7)). lia.
Defined.

(** X11: the summary loop ends with [all_pass] true exactly when every
    recorded result is true, for any number of results. *)
Theorem summary_all_pass_iff (results : list (string * bool)) :
  summary_all_pass results = forallb snd results
  /\ (summary_all_pass results = true
      <-> forall (name : string) (passed : bool),
            (name, passed) ∈ results -> passed = true).
Proof.
  assert (Hfold : forall acc,
             fold_left (fun all_pass (r : string * bool) =>
                          if negb r.2 then false else all_pass) results acc
             = acc && forallb snd results).
  { induction results as [| [n r] results IH]; intros acc; cbn [fold_left forallb].
    - rewrite andb_true_r. reflexivity.
    - rewrite IH. destruct r, acc; reflexivity. }
  assert (E : summary_all_pass results = forallb snd results)
    by (unfold summary_all_pass; rewrite Hfold; reflexivity).
  split; [exact E |].
  rewrite E, forallb_forall. split.
  - intros Hall name passed Hin. apply list_elem_of_In in Hin.
    apply (Hall (name, passed) Hin).
  - intros Hall [name passed] Hin. apply (Hall name passed).
    apply list_elem_of_In. exact Hin.
Qed.

End KeyRotation.

(** * Further properties of the benchmark-filter patcher *)

Section Scan.
Import FilterPatch.

Local Open Scope string_scope.

Lemma app_nil_string (b : string) : "" +:+ b = b.
Proof. reflexivity. Qed.

Lemma app_cons_string (c : ascii) (a b : string) :
  String c a +:+ b = String c (a +:+ b).
Proof. reflexivity. Qed.

Lemma app_assoc_string (a b c : string) : (a +:+ b) +:+ c = a +:+ (b +:+ c).
Proof.
  induction a as [| x a IH]; [reflexivity |].
  rewrite !app_cons_string, IH. reflexivity.
Qed.

Lemma app_empty_r (a : string) : a +:+ "" = a.
Proof.
  induction a as [| x a IH]; [reflexivity |].
  rewrite app_cons_string, IH. reflexivity.
Qed.

Lemma length_app_string (a b : string) :
  String.length (a +:+ b) = (String.length a + String.length b)%nat.
Proof.
  induction a as [| x a IH]; [reflexivity |].
  rewrite app_cons_string. cbn [String.length]. rewrite IH. reflexivity.
Qed.

Lemma quotes_app (a b : string) : quotes (a +:+ b) = (quotes a + quotes b)%nat.
Proof.
  induction a as [| x a IH]; [reflexivity |].
  rewrite app_cons_string. cbn [quotes]. rewrite IH. lia.
Qed.

Lemma has_quote_quotes (s : string) : has_quote s = false <-> quotes s = 0%nat.
Proof.
  induction s as [| c s IH]; cbn; [tauto |].
  destruct (Ascii.eqb c dquote); cbn; [split; [discriminate | lia] | exact IH].
Qed.

Lemma strip_prefix_app (p r : string) : strip_prefix p (p +:+ r) = Some r.
Proof.
  induction p as [| a p IH]; [reflexivity |].
  rewrite app_cons_string. cbn [strip_prefix]. rewrite Ascii.eqb_refl. exact IH.
Qed.

Lemma strip_prefix_Some (p s r : string) : strip_prefix p s = Some r -> s = p +:+ r.
Proof.
  revert s. induction p as [| a p IH]; intros s E; cbn in E.
  - injection E as <-. reflexivity.
  - destruct s as [| b s]; [discriminate E |].
    destruct (Ascii.eqb_spec a b) as [<- | _]; [| discriminate E].
    rewrite app_cons_string. f_equal. apply IH. exact E.
Qed.

Lemma upto_quote_Some (s q : string) :
  upto_quote s = Some q ->
  exists body t : string,
    q = body +:+ String dquote "" /\ s = q +:+ t /\ has_quote body = false.
Proof.
  revert q. induction s as [| c s IH]; intros q E; cbn in E; [discriminate E |].
  destruct (Ascii.eqb_spec c dquote) as [-> | Hc].
  - injection E as <-. exists "", s. auto.
  - destruct (upto_quote s) as [q' |]; [| discriminate E].
    injection E as <-.
    destruct (IH q' eq_refl) as (body & t & -> & -> & Hb).
    exists (String c body), t. rewrite !app_cons_string. cbn [has_quote].
    rewrite (proj2 (Ascii.eqb_neq c dquote) Hc), Hb. auto.
Qed.

Lemma upto_quote_app (body t : string) :
  has_quote body = false ->
  upto_quote (body +:+ String dquote t) = Some (body +:+ String dquote "").
Proof.
  induction body as [| c body IH].
  - intros _. rewrite !app_nil_string. cbn [upto_quote].
    rewrite Ascii.eqb_refl. reflexivity.
  - intros Hq. cbn [has_quote] in Hq. apply orb_false_iff in Hq as [Hc Hb].
    rewrite !app_cons_string. cbn [upto_quote]. rewrite Hc, (IH Hb). reflexivity.
Qed.

(** A match is the head of the pattern, a body without a double quote
    and a double quote; the text goes on behind it. *)
Lemma match_filter_at_Some (s m : string) :
  match_filter_at s = Some m ->
  exists body t : string,
    m = filter_replacement body /\ s = m +:+ t /\ has_quote body = false.
Proof.
  unfold match_filter_at, filter_replacement. intros E.
  destruct (strip_prefix filter_head s) as [rest |] eqn:Hp; [| discriminate E].
  apply strip_prefix_Some in Hp.
  destruct (upto_quote rest) as [q |] eqn:Hq; [| discriminate E].
  cbn [option_map] in E. injection E as <-.
  destruct (upto_quote_Some rest q Hq) as (body & t & -> & -> & Hb).
  exists body, t. rewrite Hp, !app_assoc_string. auto.
Qed.

(** A filter with a body without a double quote is matched whole. *)
Lemma match_filter_at_filter (body t : string) :
  has_quote body = false ->
  match_filter_at (filter_replacement body +:+ t) = Some (filter_replacement body).
Proof.
  intros Hb. unfold match_filter_at, filter_replacement.
  rewrite !app_assoc_string, strip_prefix_app.
  change (String dquote "" +:+ t) with (String dquote t).
  rewrite (upto_quote_app body t Hb). reflexivity.
Qed.

Lemma sub_matches_skip (emit : string -> string) (u t : string) :
  sub_matches emit (String.length u) (u +:+ t) = sub_matches emit 0 t.
Proof.
  induction u as [| c u IH]; [reflexivity |].
  rewrite app_cons_string. cbn [String.length sub_matches]. exact IH.
Qed.

(** One step of the scan at a match. *)
Lemma sub_matches_at_match (emit : string -> string) (m t : string) :
  match_filter_at (m +:+ t) = Some m ->
  sub_matches emit 0 (m +:+ t) = emit m +:+ sub_matches emit 0 t.
Proof.
  intros E. destruct m as [| c m].
  - apply match_filter_at_Some in E as (body & t' & Hm & _). discriminate Hm.
  - rewrite app_cons_string in E |- *. cbn [sub_matches]. rewrite E.
    cbn [String.length]. rewrite Nat.sub_succ, Nat.sub_0_r, sub_matches_skip.
    reflexivity.
Qed.

(** One step of the scan where there is no match. *)
Lemma sub_matches_no_match (emit : string -> string) (c : ascii) (rest : string) :
  match_filter_at (String c rest) = None ->
  sub_matches emit 0 (String c rest) = String c (sub_matches emit 0 rest).
Proof. intros E. cbn [sub_matches]. rewrite E. reflexivity. Qed.

(** A match needs two double quotes. *)
Lemma match_filter_at_quotes (s m : string) :
  match_filter_at s = Some m -> (2 <= quotes s)%nat.
Proof.
  intros E. apply match_filter_at_Some in E as (body & t & -> & -> & _).
  unfold filter_replacement. rewrite !quotes_app.
  change (quotes filter_head) with 1%nat.
  change (quotes (String dquote "")) with 1%nat. lia.
Qed.

Lemma sub_matches_few_quotes (emit : string -> string) (s : string) :
  (quotes s <= 1)%nat -> sub_matches emit 0 s = s.
Proof.
  induction s as [| c s IH]; [reflexivity |]. intros Hq.
  destruct (match_filter_at (String c s)) as [m |] eqn:E.
  - apply match_filter_at_quotes in E. lia.
  - rewrite sub_matches_no_match by exact E. rewrite IH; [reflexivity |].
    cbn [quotes] in Hq. lia.
Qed.

End Scan.

Section FirstFilter.
Import FilterPatch.

Local Open Scope string_scope.

Lemma get_no_quote (s : string) (i : nat) :
  has_quote s = false -> String.get i s <> Some dquote.
Proof.
  revert i. induction s as [| c s IH]; intros i Hq; [discriminate |].
  cbn [has_quote] in Hq. apply orb_false_iff in Hq as [Hc Hs].
  destruct i as [| i]; cbn [String.get].
  - intros E. injection E as ->. rewrite Ascii.eqb_refl in Hc. discriminate Hc.
  - apply IH. exact Hs.
Qed.

Lemma strip_prefix_get (p s r : string) (i : nat) (c : ascii) :
  strip_prefix p s = Some r -> String.get i p = Some c -> String.get i s = Some c.
Proof.
  intros Hp. apply strip_prefix_Some in Hp as ->. intros Hg.
  rewrite <- append_correct1; [exact Hg |].
  destruct (Nat.lt_ge_cases i (String.length p)) as [Hlt | Hge]; [exact Hlt |].
  assert (Hnone : String.get i p = None).
  { clear Hg. revert i Hge. induction p as [| a p IH]; intros i Hge; [reflexivity |].
    destruct i as [| i]; cbn [String.length] in Hge; [lia |].
    cbn [String.get]. apply IH. lia. }
  congruence.
Qed.

(** The head of the pattern does not start inside a text without a double
    quote that stands before a filter. *)
Lemma no_match_before_filter (c : ascii) (pre x : string) :
  has_quote (String c pre) = false ->
  match_filter_at (String c pre +:+ filter_head +:+ x) = None.
Proof.
  intros Hq. unfold match_filter_at.
  destruct (strip_prefix filter_head (String c pre +:+ filter_head +:+ x))
    as [r |] eqn:Hp; [exfalso | reflexivity].
  pose proof (strip_prefix_get _ _ _ 8 dquote Hp eq_refl) as Hg.
  destruct (Nat.lt_ge_cases 8 (String.length (String c pre))) as [Hlt | Hge].
  - rewrite <- append_correct1 in Hg by exact Hlt.
    exact (get_no_quote _ _ Hq Hg).
  - remember (String c pre) as p eqn:Ep.
    assert (Hpos : (1 <= String.length p)%nat) by (rewrite Ep; cbn; lia).
    replace 8%nat
      with ((8 - String.length p) + String.length p)%nat in Hg by lia.
    rewrite <- append_correct2 in Hg.
    rewrite <- append_correct1 in Hg
      by (change (String.length filter_head) with 9%nat; lia).
    remember (8 - String.length p)%nat as j eqn:Ej.
    assert (Hj : (j < 8)%nat) by lia.
    do 8 (destruct j as [| j]; [discriminate Hg |]). lia.
Qed.

Lemma sub_matches_before_filter (emit : string -> string) (pre old post : string) :
  has_quote pre = false ->
  has_quote old = false ->
  sub_matches emit 0 (pre +:+ filter_replacement old +:+ post)
  = pre +:+ emit (filter_replacement old) +:+ sub_matches emit 0 post.
Proof.
  intros Hpre Hold. induction pre as [| c pre IH].
  - rewrite !app_nil_string. apply sub_matches_at_match.
    apply match_filter_at_filter. exact Hold.
  - assert (Hnone : match_filter_at
                      (String c pre +:+ filter_replacement old +:+ post) = None).
    { unfold filter_replacement. rewrite !app_assoc_string.
      apply no_match_before_filter. exact Hpre. }
    rewrite app_cons_string in Hnone |- *.
    rewrite sub_matches_no_match by exact Hnone.
    rewrite app_cons_string, IH; [reflexivity |].
    cbn [has_quote] in Hpre. apply orb_false_iff in Hpre as [_ Hpre]. exact Hpre.
Qed.

(** X13: in a script with one filter, the substitution replaces the filter's
    argument and keeps the text before and after it: nothing in front of
    the filter holds a double quote, and at most one stands behind it. *)
Theorem sub_replaces_the_filter
    (expand_template : string -> option (string -> string))
    (new_filter pre old post : string) :
  taken_literally expand_template (filter_replacement new_filter) ->
  has_quote pre = false ->
  has_quote old = false ->
  (quotes post <= 1)%nat ->
  re_sub_filter expand_template (filter_replacement new_filter)
    (pre +:+ filter_replacement old +:+ post)
  = Some (pre +:+ filter_replacement new_filter +:+ post).
Proof.
  intros Hlit Hpre Hold Hpost. unfold re_sub_filter. rewrite Hlit.
  cbn [mbind option_bind].
  rewrite sub_matches_before_filter by assumption.
  rewrite sub_matches_few_quotes by exact Hpost. reflexivity.
Qed.

Lemma sub_replaces_the_filter_witness :
  re_sub_filter literal_template (filter_replacement "A|B")
    ("bench_bitcoin " +:+ filter_replacement "Old" +:+ " -min-time=1000")
  = Some ("bench_bitcoin " +:+ filter_replacement "A|B" +:+ " -min-time=1000").
Proof.
  apply (sub_replaces_the_filter literal_template
           "A|B" "bench_bitcoin " "Old" " -min-time=1000").
  - reflexivity.
  - reflexivity.
  - reflexivity.
  - vm_compute. lia.
Defined.

End FirstFilter.

Section Idempotence.
Import FilterPatch.

Local Open Scope string_scope.

Variable new_filter : string.
Hypothesis new_filter_no_quote : has_quote new_filter = false.

#[local] Abbreviation emit_new := (fun _ : string => filter_replacement new_filter).

Lemma upto_quote_None (s : string) : upto_quote s = None -> has_quote s = false.
Proof.
  induction s as [| c s IH]; [reflexivity |]. cbn [upto_quote has_quote].
  destruct (Ascii.eqb c dquote); [discriminate |].
  destruct (upto_quote s); [discriminate |]. intros _. apply IH. reflexivity.
Qed.

(** Whether a short text is a prefix of [h +:+ x] is decided by [h]. *)
Lemma strip_prefix_short (p h x : string) :
  (String.length p <= String.length h)%nat ->
  (strip_prefix p (h +:+ x) = None <-> strip_prefix p h = None).
Proof.
  revert h. induction p as [| a p IH]; intros h Hlen.
  - cbn [strip_prefix]. split; discriminate.
  - destruct h as [| b h]; [cbn [String.length] in Hlen; lia |].
    rewrite app_cons_string. cbn [strip_prefix].
    destruct (Ascii.eqb a b); [| tauto].
    apply IH. cbn [String.length] in Hlen. lia.
Qed.

(** The substitution keeps the first nine characters as far as a prefix
    test can see them: a match is replaced by a text with the same head. *)
Lemma strip_prefix_sub_matches (s p : string) :
  (String.length p <= 9)%nat ->
  (strip_prefix p (sub_matches emit_new 0 s) = None <-> strip_prefix p s = None).
Proof.
  revert p. induction s as [| c s IH]; intros p Hlen; [reflexivity |].
  destruct (match_filter_at (String c s)) as [m |] eqn:E.
  - destruct (match_filter_at_Some _ _ E) as (body & t & -> & Hs & _).
    rewrite Hs in E |- *. rewrite sub_matches_at_match by exact E.
    unfold filter_replacement. rewrite !app_assoc_string.
    rewrite !strip_prefix_short by exact Hlen. reflexivity.
  - rewrite sub_matches_no_match by exact E.
    destruct p as [| a p]; [cbn [strip_prefix]; split; discriminate |].
    cbn [strip_prefix]. destruct (Ascii.eqb a c); [| tauto].
    apply IH. cbn [String.length] in Hlen. lia.
Qed.

(** Where the scan finds no match, it finds none in its own output. *)
Lemma no_match_after_sub (s : string) :
  match_filter_at s = None -> match_filter_at (sub_matches emit_new 0 s) = None.
Proof.
  intros E. unfold match_filter_at in E |- *.
  destruct (strip_prefix filter_head s) as [u |] eqn:Hp.
  - destruct (upto_quote u) as [q |] eqn:Hq; [discriminate E |].
    apply upto_quote_None, has_quote_quotes in Hq.
    apply strip_prefix_Some in Hp.
    rewrite sub_matches_few_quotes.
    + rewrite Hp, strip_prefix_app.
      destruct (upto_quote u) eqn:Hu; [| reflexivity].
      apply upto_quote_Some in Hu as (body & t & -> & -> & _).
      rewrite !quotes_app in Hq. cbn [quotes] in Hq.
      rewrite Ascii.eqb_refl in Hq. lia.
    + rewrite Hp, quotes_app, Hq. change (quotes filter_head) with 1%nat. lia.
  - apply (strip_prefix_sub_matches s filter_head) in Hp;
      [| change (String.length filter_head) with 9%nat; lia].
    rewrite Hp. reflexivity.
Qed.

(** Substituting again changes nothing: after one substitution every
    filter of the text has the new argument. *)
Lemma sub_matches_idempotent (s : string) :
  sub_matches emit_new 0 (sub_matches emit_new 0 s) = sub_matches emit_new 0 s.
Proof.
  remember (String.length s) as n eqn:Hn. revert s Hn.
  induction n as [n IH] using lt_wf_ind. intros s Hn.
  destruct s as [| c s]; [reflexivity |].
  destruct (match_filter_at (String c s)) as [m |] eqn:E.
  - destruct (match_filter_at_Some _ _ E) as (body & t & -> & Hs & _).
    rewrite Hs in E |- *. rewrite sub_matches_at_match by exact E.
    rewrite sub_matches_at_match
      by (apply match_filter_at_filter; exact new_filter_no_quote).
    f_equal. apply (IH (String.length t)); [| reflexivity].
    rewrite Hn, Hs, length_app_string. unfold filter_replacement.
    rewrite !length_app_string. change (String.length filter_head) with 9%nat. lia.
  - pose proof (no_match_after_sub _ E) as E'.
    rewrite sub_matches_no_match in E' |- * by exact E.
    rewrite sub_matches_no_match by exact E'.
    f_equal. apply (IH (String.length s)); [| reflexivity].
    rewrite Hn. cbn [String.length]. lia.
Qed.

End Idempotence.

Section UpdateLaws.
Import FilterPatch.

Local Open Scope string_scope.

Context {W : Type} `{FileSystem W}.
Variable expand_template : string -> option (string -> string).

#[local] Abbreviation update' := (update_filter_in_file expand_template).

Lemma app_inj_r (a b c : string) : a +:+ c = b +:+ c -> a = b.
Proof.
  revert b. induction a as [| x a IH]; intros [| y b] E.
  - reflexivity.
  - apply (f_equal String.length) in E.
    rewrite app_nil_string, length_app_string in E. cbn [String.length] in E. lia.
  - apply (f_equal String.length) in E.
    rewrite app_nil_string, length_app_string in E. cbn [String.length] in E. lia.
  - rewrite !app_cons_string in E. injection E as -> E. f_equal. apply IH. exact E.
Qed.

Lemma filter_replacement_inj (a b pre post : string) :
  pre +:+ filter_replacement a +:+ post = pre +:+ filter_replacement b +:+ post ->
  a = b.
Proof.
  intros E. apply String.app_inj in E. apply app_inj_r in E.
  unfold filter_replacement in E. apply String.app_inj in E.
  apply app_inj_r in E. exact E.
Qed.

(** X14: a file with fewer than two double quotes holds no filter: it is never
    written, whatever the new filter. *)
Theorem update_needs_two_quotes (w : W) (filepath new_filter content : string) :
  read_text w filepath = Some content ->
  (quotes content <= 1)%nat ->
  update' w filepath new_filter = (w, false).
Proof.
  intros Hr Hq.
  destruct (expand_template (filter_replacement new_filter)) as [emit |] eqn:He.
  - apply (update_unchanged _ _ _ _ content); [exact Hr |].
    unfold re_sub_filter. rewrite He. cbn [mbind option_bind].
    rewrite sub_matches_few_quotes by exact Hq. reflexivity.
  - apply (update_sub_fails _ _ _ _ content); [exact Hr |].
    unfold re_sub_filter. rewrite He. reflexivity.
Qed.

(** X15: a script with one filter: when the new filter differs from the one
    in the script, the script is written with the filter's argument
    replaced and the rest of its text kept, and the function returns
    whether that write completed; when it is the same, nothing is written
    and [False] is returned. *)
Theorem update_replaces_the_filter
    (w : W) (filepath new_filter pre old post : string) :
  taken_literally expand_template (filter_replacement new_filter) ->
  read_text w filepath = Some (pre +:+ filter_replacement old +:+ post) ->
  has_quote pre = false ->
  has_quote old = false ->
  (quotes post <= 1)%nat ->
  (new_filter <> old ->
   update' w filepath new_filter
   = write_text w filepath (pre +:+ filter_replacement new_filter +:+ post))
  /\ (new_filter = old -> update' w filepath new_filter = (w, false)).
Proof.
  intros Hlit Hr Hpre Hold Hpost.
  assert (Hsub : re_sub_filter expand_template (filter_replacement new_filter)
                   (pre +:+ filter_replacement old +:+ post)
                 = Some (pre +:+ filter_replacement new_filter +:+ post)).
  { unfold re_sub_filter. rewrite Hlit. cbn [mbind option_bind].
    rewrite sub_matches_before_filter by assumption.
    rewrite sub_matches_few_quotes by exact Hpost. reflexivity. }
  split.
  - intros Hne. apply (update_changed _ _ _ _ _ _ Hr Hsub).
    intros E. apply Hne. apply (filter_replacement_inj _ _ pre post). exact E.
  - intros ->. apply (update_unchanged _ _ _ _ _ Hr Hsub).
Qed.

(** X16: run again with the same filter after a run that wrote the file, the
    function finds nothing to change: it returns [False] and leaves the
    file system as it is. *)
Theorem update_twice_is_once (w w1 : W) (filepath new_filter : string) :
  reads_back W ->
  taken_literally expand_template (filter_replacement new_filter) ->
  has_quote new_filter = false ->
  update' w filepath new_filter = (w1, true) ->
  update' w1 filepath new_filter = (w1, false).
Proof.
  intros Hback Hlit Hq Hfirst.
  destruct (update_paths expand_template w filepath new_filter)
    as [[Hr | [(c & Hr & Hs) | (c & Hr & Hs)]] | (c & nc & Hr & Hs & Hne)].
  - rewrite update_read_fails in Hfirst by exact Hr. discriminate Hfirst.
  - rewrite (update_sub_fails _ _ _ _ c) in Hfirst by assumption. discriminate Hfirst.
  - rewrite (update_unchanged _ _ _ _ c) in Hfirst by assumption. discriminate Hfirst.
  - rewrite (update_changed _ _ _ _ c nc) in Hfirst by assumption.
    apply Hback in Hfirst.
    apply (update_unchanged _ _ _ _ nc); [exact Hfirst |].
    unfold re_sub_filter in Hs |- *. rewrite Hlit in Hs |- *.
    cbn [mbind option_bind] in Hs |- *. injection Hs as <-.
    rewrite sub_matches_idempotent by exact Hq. reflexivity.
Qed.

Lemma update_frame (w : W) (filepath new_filter q : string) :
  writes_one_file W ->
  q <> filepath ->
  read_text (update' w filepath new_filter).1 q = read_text w q.
Proof.
  intros Hone Hq.
  destruct (update_paths expand_template w filepath new_filter)
    as [[Hr | [(c & Hr & Hs) | (c & Hr & Hs)]] | (c & nc & Hr & Hs & Hne)].
  - rewrite update_read_fails by exact Hr. reflexivity.
  - rewrite (update_sub_fails _ _ _ _ c) by assumption. reflexivity.
  - rewrite (update_unchanged _ _ _ _ c) by assumption. reflexivity.
  - rewrite (update_changed _ _ _ _ c nc) by assumption. apply Hone. exact Hq.
Qed.

(** X17: the function reads and writes its own file only: what is read from
    any other path is the same before and after. *)
Theorem update_leaves_other_files (w : W) (filepath new_filter q : string) :
  writes_one_file W ->
  q <> filepath ->
  read_text (update' w filepath new_filter).1 q = read_text w q.
Proof. apply update_frame. Qed.

End UpdateLaws.

(** * Properties of the run over the benchmark scripts *)

Section Matching.
Import FilterPatch FilterScript.

Local Open Scope string_scope.

Lemma contains_iff (needle haystack : string) :
  contains needle haystack = true
  <-> exists pre post : string, haystack = pre +:+ needle +:+ post.
Proof.
  split.
  - induction haystack as [| c rest IH]; cbn [contains].
    + destruct (strip_prefix needle "") as [r |] eqn:Hp; [| discriminate].
      intros _. apply strip_prefix_Some in Hp. exists "", r. exact Hp.
    + destruct (strip_prefix needle (String c rest)) as [r |] eqn:Hp.
      * intros _. apply strip_prefix_Some in Hp. exists "", r. exact Hp.
      * intros Hc. destruct (IH Hc) as (pre & post & ->).
        exists (String c pre), post. reflexivity.
  - intros (pre & post & ->). induction pre as [| c pre IH].
    + rewrite app_nil_string.
      destruct post as [| d post]; destruct needle as [| a needle];
        try reflexivity; rewrite ?app_cons_string; cbn [contains];
        rewrite <- ?app_cons_string, strip_prefix_app; reflexivity.
    + rewrite app_cons_string. cbn [contains].
      destruct (strip_prefix needle (String c (pre +:+ needle +:+ post)));
        [reflexivity | exact IH].
Qed.

(** A text that holds a word holds every end of the word. *)
Lemma contains_suffix (front back haystack : string) :
  contains (front +:+ back) haystack = true -> contains back haystack = true.
Proof.
  rewrite !contains_iff. intros (pre & post & ->).
  exists (pre +:+ front), post. rewrite !app_assoc_string. reflexivity.
Qed.

(** X18: in the pattern [id|txid] of the transaction-id script the second
    alternative adds nothing: a name is selected exactly when it holds
    [id], in any case of the letters. *)
Theorem txid_alternative_is_redundant (b : string) :
  re_search_i ["id"; "txid"] b = re_search_i ["id"] b
  /\ (re_search_i ["id"; "txid"] b = true
      <-> exists pre post : string, lower b = pre +:+ "id" +:+ post).
Proof.
  assert (E : re_search_i ["id"; "txid"] b = re_search_i ["id"] b).
  { unfold re_search_i. cbn [existsb].
    destruct (contains "id" (lower b)) eqn:Hid; [reflexivity |].
    destruct (contains "txid" (lower b)) eqn:Htx; [| reflexivity].
    apply (contains_suffix "tx" "id") in Htx. congruence. }
  split; [exact E |].
  rewrite E. unfold re_search_i. cbn [existsb]. rewrite orb_false_r.
  apply contains_iff.
Qed.

End Matching.

Section RunFacts.
Import FilterPatch FilterScript.

Local Open Scope string_scope.

Context {W : Type} `{FileSystem W}.
Variable expand_template : string -> option (string -> string).
Variable path_exists : W -> string -> bool.
Variable core_dir : string.

#[local] Abbreviation path_of := (script_path core_dir).
#[local] Abbreviation report' := (report expand_template core_dir).
#[local] Abbreviation joined := (update_joined expand_template path_exists core_dir).
#[local] Abbreviation first_of := (update_first expand_template path_exists core_dir).
#[local] Abbreviation first_three_of :=
  (update_first_three expand_template path_exists core_dir).
#[local] Abbreviation run := (run_updates expand_template path_exists core_dir).

(** A step of the run: what it may do to the file system and to the list
    of names printed. *)
Definition step_within (name : string)
    (step : W * list string -> W * list string) : Prop :=
  forall st : W * list string,
    (step st = st
     \/ exists filter_str : string,
          path_exists st.1 (path_of name) = true
          /\ step st = report' st name filter_str).

Lemma joined_within (cat : list string) (name : string) :
  step_within name (joined cat name).
Proof.
  intros st. unfold update_joined. destruct cat as [| b cat]; [left; reflexivity |].
  destruct (path_exists st.1 (path_of name)) eqn:He; [| left; reflexivity].
  right. eexists. split; reflexivity.
Qed.

Lemma first_of_within (cat : list string) (matches : string -> bool) (name : string) :
  step_within name (first_of cat matches name).
Proof.
  intros st. unfold update_first.
  destruct (path_exists st.1 (path_of name)) eqn:He; [| left; reflexivity].
  destruct (negb (bool_decide (cat = []))); [| left; reflexivity].
  cbn [andb]. destruct (List.filter matches cat) as [| b l]; [left; reflexivity |].
  right. eexists. split; reflexivity.
Qed.

Lemma first_three_of_within (cat : list string) (matches : string -> bool)
    (name : string) :
  step_within name (first_three_of cat matches name).
Proof.
  intros st. unfold update_first_three.
  destruct (path_exists st.1 (path_of name)) eqn:He; [| left; reflexivity].
  destruct (negb (bool_decide (cat = []))); [| left; reflexivity].
  cbn [andb]. destruct (List.filter matches cat) as [| b l]; [left; reflexivity |].
  right. eexists. split; reflexivity.
Qed.

(** The run as the chain of its eleven steps. *)
Lemma run_steps (data : option (gmap string (list string))) (w : W) :
  exists steps : list (string * (W * list string -> W * list string)),
    map fst steps = script_names
    /\ Forall (fun s => step_within s.1 s.2) steps
    /\ run data w = fold_left (fun st s => s.2 st) steps (w, []).
Proof.
  exists
    [("mempool-operations-bench.sh",
      joined (category data "mempool") "mempool-operations-bench.sh");
     ("transaction-serialization-bench.sh",
      first_of (category data "transaction") (re_search_i ["serialization"])
        "transaction-serialization-bench.sh");
     ("transaction-id-bench.sh",
      first_of (category data "transaction") (re_search_i ["id"; "txid"])
        "transaction-id-bench.sh");
     ("transaction-sighash-bench.sh",
      first_of (category data "transaction") (re_search_i ["sighash"])
        "transaction-sighash-bench.sh");
     ("block-assembly-bench.sh",
      first_of (category data "block") (lower_contains "assemble")
        "block-assembly-bench.sh");
     ("block-serialization-bench.sh",
      first_three_of (category data "block")
        (re_search_i ["read"; "write"; "deserialize"])
        "block-serialization-bench.sh");
     ("script-verification-bench.sh",
      joined (category data "script") "script-verification-bench.sh");
     ("ripemd160-bench.sh",
      first_of (category data "hash") (lower_contains "ripemd") "ripemd160-bench.sh");
     ("merkle-tree-bench.sh",
      first_of (category data "hash") (lower_contains "merkle")
        "merkle-tree-bench.sh");
     ("base58-bech32-bench.sh",
      joined (category data "encoding") "base58-bech32-bench.sh");
     ("utxo-caching-bench.sh",
      joined (category data "utxo") "utxo-caching-bench.sh")].
  split; [| split].
  - reflexivity.
  - repeat (apply Forall_cons_2;
            [first [apply joined_within | apply first_of_within
                   | apply first_three_of_within] |]).
    apply Forall_nil_2.
  - unfold run_updates. cbn [fold_left snd]. reflexivity.
Qed.

Lemma report_other_file (st : W * list string) (name filter_str q : string) :
  writes_one_file W ->
  q <> path_of name ->
  read_text (report' st name filter_str).1 q = read_text st.1 q.
Proof.
  intros Hone Hq. unfold report.
  pose proof (update_frame expand_template st.1 (path_of name) filter_str q Hone Hq)
    as Hf.
  destruct (update_filter_in_file expand_template st.1 (path_of name) filter_str)
    as [w' updated].
  exact Hf.
Qed.

Lemma report_names (st : W * list string) (name filter_str n : string) :
  n ∈ (report' st name filter_str).2 -> n ∈ st.2 \/ n = name.
Proof.
  unfold report.
  destruct (update_filter_in_file expand_template st.1 (path_of name) filter_str)
    as [w' [|]]; cbn [snd]; [| auto].
  rewrite elem_of_app, list_elem_of_singleton. auto.
Qed.

Lemma steps_touch_known_scripts
    (steps : list (string * (W * list string -> W * list string)))
    (st : W * list string) (q : string) :
  writes_one_file W ->
  Forall (fun s => step_within s.1 s.2) steps ->
  (forall name, name ∈ map fst steps -> q <> path_of name) ->
  let final := fold_left (fun st s => s.2 st) steps st in
  read_text final.1 q = read_text st.1 q
  /\ (forall n, n ∈ final.2 -> n ∈ st.2 \/ n ∈ map fst steps).
Proof.
  intros Hone Hsteps. revert st.
  induction Hsteps as [| [name step] steps Hstep _ IH]; intros st Hq final.
  - subst final. cbn [fold_left]. auto.
  - subst final. cbn [fold_left snd].
    assert (Hq' : forall name', name' ∈ map fst steps -> q <> path_of name')
      by (intros name' Hin; apply Hq; cbn [map]; apply list_elem_of_further; exact Hin).
    destruct (IH (step st) Hq') as [Hread Hnames].
    assert (Hname : q <> path_of name)
      by (apply Hq; cbn [map fst]; apply list_elem_of_here).
    cbn [fst snd] in Hstep.
    destruct (Hstep st) as [Est | (filter_str & _ & Est)].
    + rewrite Est in Hread, Hnames |- *. split; [exact Hread |]. intros n Hn.
      destruct (Hnames n Hn) as [Hst | Hin]; [auto |].
      right. cbn [map]. apply list_elem_of_further. exact Hin.
    + rewrite Est in Hread, Hnames |- *. split.
      * rewrite Hread. apply report_other_file; assumption.
      * intros n Hn. destruct (Hnames n Hn) as [Hrep | Hin].
        -- apply report_names in Hrep as [Hst | ->]; [auto |].
           right. cbn [map fst]. apply list_elem_of_here.
        -- right. cbn [map]. apply list_elem_of_further. exact Hin.
Qed.

(** X19: the run reads and writes the eleven benchmark scripts only: what is
    read from any other path is the same before and after, and every name
    printed as updated is the name of one of the eleven. *)
Theorem run_touches_known_scripts
    (data : option (gmap string (list string))) (w : W) (q : string) :
  writes_one_file W ->
  (forall name, name ∈ script_names -> q <> path_of name) ->
  read_text (run data w).1 q = read_text w q
  /\ (forall n, n ∈ (run data w).2 -> n ∈ script_names).
Proof.
  intros Hone Hq.
  destruct (run_steps data w) as (steps & Hnames & Hsteps & ->).
  rewrite <- Hnames in Hq |- *.
  destruct (steps_touch_known_scripts steps (w, []) q Hone Hsteps Hq) as [Hread Hn].
  split; [exact Hread |].
  intros n Hin. destruct (Hn n Hin) as [Hnil | Hok]; [| exact Hok].
  cbn [snd] in Hnil. apply elem_of_nil in Hnil. contradiction.
Qed.

Lemma steps_without_scripts
    (steps : list (string * (W * list string -> W * list string)))
    (st : W * list string) :
  Forall (fun s => step_within s.1 s.2) steps ->
  (forall name, name ∈ map fst steps -> path_exists st.1 (path_of name) = false) ->
  fold_left (fun st s => s.2 st) steps st = st.
Proof.
  intros Hsteps. induction Hsteps as [| [name step] steps Hstep _ IH]; intros Hno.
  - reflexivity.
  - cbn [fold_left snd]. cbn [fst snd] in Hstep.
    destruct (Hstep st) as [Est | (filter_str & Hex & _)].
    + rewrite Est. apply IH. intros name' Hin. apply Hno. cbn [map].
      apply list_elem_of_further. exact Hin.
    + rewrite Hno in Hex by (cbn [map fst]; apply list_elem_of_here).
      discriminate Hex.
Qed.

(** X20: when none of the eleven scripts exists, the run changes nothing and
    prints no name: a missing script is never created. *)
Theorem run_without_scripts (data : option (gmap string (list string))) (w : W) :
  (forall name, name ∈ script_names -> path_exists w (path_of name) = false) ->
  run data w = (w, []).
Proof.
  intros Hno.
  destruct (run_steps data w) as (steps & Hnames & Hsteps & ->).
  apply steps_without_scripts; [exact Hsteps |].
  rewrite Hnames. exact Hno.
Qed.

Lemma first_of_nil (matches : string -> bool) (name : string) (st : W * list string) :
  first_of [] matches name st = st.
Proof.
  unfold update_first. rewrite bool_decide_eq_true_2 by reflexivity.
  cbn [negb]. rewrite andb_false_r. reflexivity.
Qed.

Lemma first_three_of_nil (matches : string -> bool) (name : string)
    (st : W * list string) :
  first_three_of [] matches name st = st.
Proof.
  unfold update_first_three. rewrite bool_decide_eq_true_2 by reflexivity.
  cbn [negb]. rewrite andb_false_r. reflexivity.
Qed.

(** X21: when the mapping file lists no benchmark in any category (or has no
    [categories] object at all), the run changes nothing and prints no
    name. *)
Theorem run_without_benchmarks
    (data : option (gmap string (list string))) (w : W) :
  (forall name, category data name = []) ->
  run data w = (w, []).
Proof.
  intros Hempty. unfold run_updates. rewrite !Hempty.
  rewrite !first_of_nil, first_three_of_nil. reflexivity.
Qed.

End RunFacts.

(** * The in-memory file system and the runs on it *)

Section MemFsFacts.
Import FilterPatch FilterScript.

Local Open Scope string_scope.

Lemma mem_reads_back : reads_back MemFs.
Proof.
  intros w w' p s. cbn [write_text mem_fs].
  destruct (bool_decide (p ∈ read_only w)); intros E; [discriminate E |].
  injection E as <-. cbn [read_text mem_fs files]. apply lookup_insert_eq.
Qed.

Lemma mem_writes_one_file : writes_one_file MemFs.
Proof.
  intros w p s q Hq. cbn [write_text mem_fs].
  destruct (bool_decide (p ∈ read_only w)); [reflexivity |].
  cbn [fst read_text mem_fs files]. apply lookup_insert_ne. congruence.
Qed.

Lemma update_needs_two_quotes_witness :
  update_filter_in_file literal_template scripts_fs "core/notes.txt" "A|B"
  = (scripts_fs, false).
Proof.
  apply (update_needs_two_quotes literal_template scripts_fs
           "core/notes.txt" "A|B" "no filter here").
  - reflexivity.
  - vm_compute. lia.
Defined.

Lemma update_replaces_the_filter_witness :
  update_filter_in_file literal_template sample_fs "core/a-bench.sh" "A|B"
  = write_text sample_fs "core/a-bench.sh"
      ("bench_bitcoin " +:+ filter_replacement "A|B" +:+ " -min-time=1000")
  /\ update_filter_in_file literal_template sample_fs "core/a-bench.sh" "Old"
     = (sample_fs, false).
Proof.
  split.
  - apply (proj1 (update_replaces_the_filter literal_template sample_fs
             "core/a-bench.sh" "A|B" "bench_bitcoin " "Old" " -min-time=1000"
             ltac:(reflexivity) ltac:(reflexivity) ltac:(reflexivity)
             ltac:(reflexivity) ltac:(vm_compute; lia))).
    discriminate.
  - apply (proj2 (update_replaces_the_filter literal_template sample_fs
             "core/a-bench.sh" "Old" "bench_bitcoin " "Old" " -min-time=1000"
             ltac:(reflexivity) ltac:(reflexivity) ltac:(reflexivity)
             ltac:(reflexivity) ltac:(vm_compute; lia))).
    reflexivity.
Defined.

Lemma update_twice_is_once_witness :
  exists w1 : MemFs,
    update_filter_in_file literal_template sample_fs "core/a-bench.sh" "A|B"
    = (w1, true)
    /\ update_filter_in_file literal_template w1 "core/a-bench.sh" "A|B"
       = (w1, false).
Proof.
  eexists. split; [apply update_sample_written |].
  apply (update_twice_is_once literal_template sample_fs).
  - exact mem_reads_back.
  - reflexivity.
  - reflexivity.
  - apply update_sample_written.
Defined.

Lemma update_leaves_other_files_witness :
  read_text
    (update_filter_in_file literal_template sample_fs "core/a-bench.sh" "A|B").1
    "core/b-bench.sh"
  = read_text sample_fs "core/b-bench.sh".
Proof.
  apply (update_leaves_other_files literal_template sample_fs).
  - exact mem_writes_one_file.
  - discriminate.
Defined.

Lemma not_a_script (q : string) :
  q = "core/notes.txt" ->
  forall name : string, name ∈ script_names -> q <> script_path "core" name.
Proof.
  intros -> name Hin. unfold script_names in Hin.
  repeat (apply elem_of_cons in Hin as [-> | Hin]; [discriminate |]).
  apply elem_of_nil in Hin. contradiction.
Qed.

Lemma run_touches_known_scripts_witness :
  read_text
    (run_updates literal_template mem_exists "core" sample_data scripts_fs).1
    "core/notes.txt"
  = read_text scripts_fs "core/notes.txt"
  /\ (forall n : string,
        n ∈ (run_updates literal_template mem_exists "core" sample_data scripts_fs).2 ->
        n ∈ script_names).
Proof.
  apply (run_touches_known_scripts literal_template mem_exists "core"
           sample_data scripts_fs "core/notes.txt").
  - exact mem_writes_one_file.
  - apply not_a_script. reflexivity.
Defined.

Lemma run_without_scripts_witness :
  run_updates literal_template mem_exists "core" sample_data empty_fs
  = (empty_fs, []).
Proof.
  apply (run_without_scripts literal_template mem_exists "core" sample_data empty_fs).
  intros name _. reflexivity.
Defined.

Lemma run_without_benchmarks_witness :
  run_updates literal_template mem_exists "core" None scripts_fs = (scripts_fs, []).
Proof.
  apply (run_without_benchmarks literal_template mem_exists "core" None scripts_fs).
  intros name. reflexivity.
Defined.

(** The run on the sample directory: the two scripts that exist get the
    filters of their categories, and their names are printed. *)
Lemma run_sample :
  let result := run_updates literal_template mem_exists "core" sample_data scripts_fs in
  result.2 = ["mempool-operations-bench.sh"; "transaction-id-bench.sh"]
  /\ read_text result.1 "core/mempool-operations-bench.sh"
     = Some (script_with "MempoolEviction|MempoolCheck")
  /\ read_text result.1 "core/transaction-id-bench.sh"
     = Some (script_with "TransactionIdCalculation").
Proof. vm_compute. repeat split. Qed.

End MemFsFacts.
